(** * engine-cache: the registry of [index.js], embedded and verified

    The module [index.js] exports one function object, [engines], that
    carries two mutable properties: [engines.options] (a plain object used
    as the options store) and [engines.cache] (a plain object mapping
    extension keys to engine descriptors).  Every descriptor is a
    JavaScript object or function that the caller passes in; [register]
    decorates that very object and stores a reference to it.  The embedding
    therefore keeps an explicit heap of objects and passes references
    around, so that identity and aliasing are those of the program. *)

From Stdlib Require Import ZArith Ascii.
From stdpp Require Import base option strings gmap list.

(** ** JavaScript values and objects *)

Module JS.

(** A reference is an index into the heap. *)
Abbreviation loc := nat.

(** The values the registry can observe.  Numbers are the integer-valued
    ones plus [NaN]; every function or object is a reference. *)
Inductive value :=
| VUndefined
| VNull
| VBool (b : bool)
| VNum (n : Z)
| VNaN
| VStr (s : string)
| VRef (l : loc).

#[global] Instance value_eq_dec : EqDecision value.
Proof. solve_decision. Defined.

#[global] Instance value_inhabited : Inhabited value := populate VUndefined.

(** An object is its own (enumerable, writable) data properties; a
    function is an object that is callable.  Prototype chains are not
    represented: on descriptors the code reads [render], [renderFile],
    [__express] and [options], none of which [Object.prototype] or
    [Function.prototype] defines, so for plain objects and functions an
    own-property lookup is what the program sees.  Where the name is the
    caller's ([engines.options[key]]) or the method is looked up on the
    caller's value ([value.hasOwnProperty]), the inherited members are
    told apart below. *)
Record object := Obj { callable : bool; props : gmap string value }.

Definition plain : object := Obj false ∅.

Abbreviation heap := (list object).

Inductive type_tag :=
| TUndefined | TObject | TBoolean | TNumber | TString | TFunction.

#[global] Instance type_tag_eq_dec : EqDecision type_tag.
Proof. solve_decision. Defined.

(** The object a reference denotes. *)
Definition deref (h : heap) (l : loc) : object := default plain (h !! l).

(** [typeof v] *)
Definition typeof (h : heap) (v : value) : type_tag :=
  match v with
  | VUndefined => TUndefined
  | VNull => TObject
  | VBool _ => TBoolean
  | VNum _ | VNaN => TNumber
  | VStr _ => TString
  | VRef l => if callable (deref h l) then TFunction else TObject
  end.

(** ToBoolean: what [if (v)], [!v] and [||] test. *)
Definition truthy (v : value) : bool :=
  match v with
  | VUndefined | VNull | VNaN => false
  | VBool b => b
  | VNum n => negb (n =? 0)%Z
  | VStr s => negb (String.eqb s "")
  | VRef _ => true
  end.

(** [a || b] on values that are already evaluated. *)
Definition js_or (a b : value) : value := if truthy a then a else b.

Definition nullish (v : value) : bool :=
  match v with VUndefined | VNull => true | _ => false end.

(** Own properties of the object behind a value; a primitive has none of
    the names the registry reads. *)
Definition own_props (h : heap) (v : value) : gmap string value :=
  match v with VRef l => props (deref h l) | _ => ∅ end.

(** [v[k]] for a value that is not [undefined] or [null]. *)
Definition prop (h : heap) (v : value) (k : string) : value :=
  default VUndefined (own_props h v !! k).

(** [o[k] = x] on the object at [l]. *)
Definition store (h : heap) (l : loc) (k : string) (x : value) : heap :=
  <[l := Obj (callable (deref h l)) (<[k := x]> (props (deref h l)))]> h.

(** [delete o[k]] *)
Definition remove (h : heap) (l : loc) (k : string) : heap :=
  <[l := Obj (callable (deref h l)) (delete k (props (deref h l)))]> h.

(** [s[0] !== '.'] for a string [s]; the empty string has no first
    character, [s[0]] is [undefined] and the test succeeds. *)
Definition first_is_not_dot (s : string) : bool :=
  match s with
  | String c _ => negb (Ascii.eqb c "."%char)
  | EmptyString => true
  end.

End JS.

Export JS.

Arguments deref : simpl never.
Arguments own_props : simpl never.
Arguments prop : simpl never.
Arguments store : simpl never.
Arguments remove : simpl never.

(** ** The registry state and its effects *)

(** [engines.options] and [engines.cache] hold references; the objects
    themselves live in the heap. *)
Record state := State { heap_of : heap; options : loc; cache : loc }.

Inductive error :=
| InvalidEngine  (* new Error('Engines are expected to have a `render` method.') *)
| TypeError.     (* raised by the language: member access on undefined or null *)

#[global] Instance error_eq_dec : EqDecision error.
Proof. solve_decision. Defined.

(** A call either returns or throws; in both cases the heap it has
    written so far stays written.  A call can also leave what is
    represented here: it calls a function supplied by the caller, replaces
    a prototype, reads a member of the host, or does what one version of
    lodash does and another does not.  [Unmodelled s] says so, with the
    state reached at that point; nothing is said about what follows. *)
Inductive outcome (A : Type) :=
| Return (a : A) (s : state)
| Throw (e : error) (s : state)
| Unmodelled (s : state).
Arguments Return {A} a s.
Arguments Throw {A} e s.
Arguments Unmodelled {A} s.

Definition M (A : Type) : Type := state → outcome A.

Definition ret {A} (a : A) : M A := λ s, Return a s.

Definition bind {A B} (c : M A) (k : A → M B) : M B :=
  λ s, match c s with
       | Return a s' => k a s'
       | Throw e s' => Throw e s'
       | Unmodelled s' => Unmodelled s'
       end.

Definition throw {A} (e : error) : M A := λ s, Throw e s.

Definition unmodelled {A} : M A := λ s, Unmodelled s.

Declare Scope js_scope.
Delimit Scope js_scope with js.
Notation "'let!' x := c 'in' k" := (bind c (λ x, k))
  (at level 10, x pattern, c at level 100, k at level 200) : js_scope.
Notation "c ;; k" := (bind c (λ _, k))
  (at level 100, k at level 200, right associativity) : js_scope.
Local Open Scope js_scope.

(** [{}] *)
Definition new_object : M loc :=
  λ s, Return (List.length (heap_of s))
              (State (heap_of s ++ [plain]) (options s) (cache s)).

(** [v.k] *)
Definition member (v : value) (k : string) : M value :=
  λ s, if nullish v then Throw TypeError s
       else Return (prop (heap_of s) v k) s.

(** [v.k = x]; the file is in strict mode, where assigning to a property
    of a primitive throws as well. *)
Definition assign (v : value) (k : string) (x : value) : M unit :=
  λ s, match v with
       | VRef l => Return tt (State (store (heap_of s) l k x) (options s) (cache s))
       | _ => Throw TypeError s
       end.

(** Reading and replacing [engines.options] and [engines.cache]. *)
Definition read_options : M loc := λ s, Return (options s) s.
Definition read_cache : M loc := λ s, Return (cache s) s.
Definition write_options (l : loc) : M unit :=
  λ s, Return tt (State (heap_of s) l (cache s)).
Definition write_cache (l : loc) : M unit :=
  λ s, Return tt (State (heap_of s) (options s) l).

Definition type_of (v : value) : M type_tag :=
  λ s, Return (typeof (heap_of s) v) s.

(** ** The operations of [index.js] *)

(** [engines.noop] is read in [register] and [get] but never assigned in
    [index.js]: reading it yields [undefined]. *)
Definition noop : value := VUndefined.

(** [if (ext[0] !== '.') ext = '.' + ext] *)
Definition dotted (ext : string) : string :=
  if first_is_not_dot ext then ("." ++ ext)%string else ext.

(** [engines.register(ext, options, fn)].  [args] are the arguments that
    follow [ext], so [arguments.length === 2] is [args = [a]]. *)
Definition register (ext : string) (args : list value) : M unit :=
  let! engine0 := new_object in
  let! params :=
    match args with
    | [a] => let! o := new_object in ret (VRef o, a)
    | _ => ret (nth 0 args VUndefined, nth 1 args VUndefined)
    end in
  let opts := params.1 in
  let fn := params.2 in
  let! ty := type_of fn in
  let! engine :=
    match ty with
    | TFunction =>
        let! r := member fn "render" in
        assign fn "render" r;;
        ret fn
    | TObject =>
        let engine := js_or fn noop in
        let! rf := member fn "renderFile" in
        let! ex := member fn "__express" in
        assign engine "renderFile" (js_or rf ex);;
        ret engine
    | _ => ret (VRef engine0)
    end in
  let! fo := member fn "options" in
  let! o := (if truthy (js_or fo opts) then ret (js_or fo opts)
             else let! o := new_object in ret (VRef o)) in
  assign engine "options" o;;
  let! r := member engine "render" in
  let! tr := type_of r in
  if decide (tr = TFunction) then
    let! c := read_cache in
    assign (VRef c) (dotted ext) engine
  else throw InvalidEngine.

(** [v.hasOwnProperty(k)].  The method is looked up on the value: with no
    own property of that name it is the built-in test; an own
    [hasOwnProperty] that is no function cannot be called, and one that is
    a function is the caller's code. *)
Definition has_own_property (v : value) (k : string) : M bool :=
  λ s, if nullish v then Throw TypeError s
       else match own_props (heap_of s) v !! "hasOwnProperty" with
            | None => Return (bool_decide (is_Some (own_props (heap_of s) v !! k))) s
            | Some f =>
                if decide (typeof (heap_of s) f = TFunction) then Unmodelled s
                else Throw TypeError s
            end.

(** [engines.load(obj)].  [entries] is the sequence of key/value pairs that
    [_.forIn] hands to the callback, in the order of the enumeration. *)

Fixpoint load (entries : list (string * value)) : M unit :=
  match entries with
  | [] => ret tt
  | (key, v) :: rest =>
      let! own := has_own_property v "render" in
      (if own then register key [v] else ret tt);;
      load rest
  end.

(** The key [get] and [clear] look up for a truthy [ext].  [ext] is
    documented as a String; what a truthy value of another type would be
    converted to is left to the host and has no image here. *)
Definition ext_key (ext : value) : option string :=
  match ext with
  | VStr e => Some (dotted e)
  | _ => None
  end.

(** [engines.get(ext)]; a call without argument passes [undefined]. *)
Definition get (s : state) (ext : value) : option value :=
  if negb (truthy ext) then Some (VRef (cache s))
  else
    key ← ext_key (js_or ext noop);
    let engine := prop (heap_of s) (VRef (cache s)) key in
    Some (if negb (truthy engine)
          then prop (heap_of s) (VRef (cache s)) "*"
          else engine).

(** [engines.clear(ext)] *)
Definition clear (s : state) (ext : value) : option state :=
  if truthy ext then
    key ← ext_key ext;
    Some (State (remove (heap_of s) (cache s) key) (options s) (cache s))
  else
    Some (State (heap_of s ++ [plain]) (options s) (List.length (heap_of s))).

(** The entries [_.extend] takes from a source: the own properties of an
    object or function, nothing from [undefined], [null], a boolean, a
    number or the empty string.  What is taken from a non-empty string
    differs between the versions of lodash. *)
Definition source_entries (h : heap) (source : value) : option (gmap string value) :=
  match source with
  | VRef _ => Some (own_props h source)
  | VStr t => if String.eqb t "" then Some ∅ else None
  | _ => Some ∅
  end.

(** [target[k] = x] for every entry of [m].  On an object that has no own
    property [__proto__] the assignment to that name goes to the setter of
    [Object.prototype]: a primitive other than [null] is ignored and no
    entry is made, an object or [null] replaces the prototype. *)
Definition assigned (target_owns_proto : bool) (m : gmap string value)
    : option (gmap string value) :=
  match m !! "__proto__" with
  | None => Some m
  | Some x =>
      if target_owns_proto then Some m
      else match x with
           | VNull | VRef _ => None
           | _ => Some (delete "__proto__" m)
           end
  end.

Definition owns_proto (h : heap) (l : loc) : bool :=
  bool_decide (is_Some (props (deref h l) !! "__proto__")).

(** [_.extend(target, source)] for a source that is not the last argument
    of a call with several sources, or is not a function.  A function as
    target has own properties such as [name] that refuse the write. *)
Definition merge_into (target : loc) (source : value) : M unit :=
  λ s, let h := heap_of s in
       if callable (deref h target) then Unmodelled s
       else
         match source_entries h source ≫= assigned (owns_proto h target) with
         | Some m =>
             Return tt (State (<[target := Obj false (m ∪ props (deref h target))]> h)
                              (options s) (cache s))
         | None => Unmodelled s
         end.

(** A function in last position of [_.extend(target, source, fn)] is not
    merged: lodash takes it as the customizer and calls it for every entry
    of [source].  With no entry it is never called. *)
Definition customize (source : value) : M unit :=
  λ s, if decide (own_props (heap_of s) source = ∅) then Return tt s
       else Unmodelled s.

(** [engines.extend(obj)]: [this.options = _.extend({}, this.options, obj)] *)
Definition extend (obj : value) : M unit :=
  let! t := new_object in
  let! o := read_options in
  let! ty := type_of obj in
  (if decide (ty = TFunction) then customize (VRef o)
   else merge_into t (VRef o);; merge_into t obj);;
  write_options t.

(** The names [Object.prototype] defines in Node.  Looking one of them up
    on an object that has no own property of that name finds the member
    of the host. *)
Definition object_prototype_names : list string :=
  [ "constructor"; "toString"; "toLocaleString"; "valueOf"; "hasOwnProperty";
    "isPrototypeOf"; "propertyIsEnumerable"; "__proto__"; "__defineGetter__";
    "__defineSetter__"; "__lookupGetter__"; "__lookupSetter__" ].

(** The options store is an object literal or the result of
    [_.extend({}, ...)] wherever the code above has set it.  A function in
    its place would bring the members of [Function.prototype] and own
    properties that cannot be written. *)
Definition ordinary_options (s : state) : bool :=
  negb (callable (deref (heap_of s) (options s))).

(** [engines.option(key)] called with one string: [engines.options[key]].
    An own property is what is read; a name that is not an own property is
    [undefined], unless the lookup ends on a member of the host, which has
    no value here. *)
Definition option_read (s : state) (key : string) : option value :=
  match own_props (heap_of s) (VRef (options s)) !! key with
  | Some v => Some v
  | None =>
      if ordinary_options s && negb (bool_decide (key ∈ object_prototype_names))
      then Some VUndefined
      else None
  end.

Section Bundled.

(** What [require('./defaults/lodash')] and [require('./defaults/noop')]
    evaluate to.  The two files are not part of the sources at hand;
    [require] hands out the same module object at every call. *)
Variables lodash_module noop_module : value.

(** [engines.defaultEngines()] *)
Definition defaultEngines : M unit :=
  register "tmpl" [lodash_module];;
  register "*" [noop_module].

(** [engines.init(opts)] *)
Definition init (opts : value) : M unit :=
  (let! o := new_object in write_options o);;
  (let! c := new_object in write_cache c);;
  extend opts;;
  defaultEngines.

End Bundled.

(** ** Reading [register] *)

(** The engine and options of a call, after the shuffle
    [if (arguments.length === 2) { fn = options; options = {} }]. *)
Definition engine_arg (args : list value) : value :=
  match args with [a] => a | _ => nth 1 args VUndefined end.

Definition options_arg (h : heap) (args : list value) : value :=
  match args with [a] => VRef (S (length h)) | _ => nth 0 args VUndefined end.

(** The heap once [var engine = {}] and, for two arguments, [options = {}]
    have been evaluated. *)
Definition entry_heap (h : heap) (args : list value) : heap :=
  match args with [a] => (h ++ [plain]) ++ [plain] | _ => h ++ [plain] end.

(** What lines 155-163 write into the engine object at [l]: [render] on a
    function, [renderFile] on an object, then [options]. *)
Definition decorate (h : heap) (opts : value) (l : loc) : heap :=
  let h2 := if callable (deref h l)
            then store h l "render" (prop h (VRef l) "render")
            else store h l "renderFile"
                   (js_or (prop h (VRef l) "renderFile") (prop h (VRef l) "__express")) in
  let v := js_or (prop h2 (VRef l) "options") opts in
  if truthy v then store h2 l "options" v
  else store (h2 ++ [plain]) l "options" (VRef (length h2)).

(** The state in which [register] returns, and the one in which it throws
    the Invalid Engine error, for an engine that is the object at [l]. *)
Definition registered (s : state) (ext : string) (args : list value) (l : loc) : state :=
  State (store (decorate (entry_heap (heap_of s) args)
                         (options_arg (heap_of s) args) l)
               (cache s) (dotted ext) (VRef l))
        (options s) (cache s).

Definition rejected (s : state) (args : list value) (l : loc) : state :=
  State (decorate (entry_heap (heap_of s) args) (options_arg (heap_of s) args) l)
        (options s) (cache s).

(** ** Reading [load] *)

(** An entry that [load] hands to [register]. *)
Definition owns_render (h : heap) (kv : string * value) : Prop :=
  is_Some (own_props h kv.2 !! "render").

#[global] Instance owns_render_dec h kv : Decision (owns_render h kv).
Proof. unfold owns_render. apply _. Defined.

(** What [load] expects of an entry: the value is not [undefined] or
    [null], it has no [hasOwnProperty] of its own, and if it owns [render]
    it has a callable one and is not the cache mapping itself. *)
Definition loadable (s : state) (kv : string * value) : Prop :=
  nullish kv.2 = false ∧
  own_props (heap_of s) kv.2 !! "hasOwnProperty" = None ∧
  (owns_render (heap_of s) kv →
   typeof (heap_of s) (prop (heap_of s) kv.2 "render") = TFunction ∧
   kv.2 ≠ VRef (cache s)).

(** What [extend] and [option] merge key by key: no function, no mapping
    with a key [__proto__] of its own, and no string but the empty one. *)
Definition plain_mapping (h : heap) (v : value) : Prop :=
  typeof h v ≠ TFunction ∧
  own_props h v !! "__proto__" = None ∧
  ∀ t, v = VStr t → t = "".

(** The registry after the first two statements of [init]: both stores
    are new, empty objects. *)
Definition emptied (s : state) : state :=
  State ((heap_of s ++ [plain]) ++ [plain])
        (length (heap_of s)) (length (heap_of s ++ [plain])).

(** ** Reading the two stores *)

Abbreviation option_entries s := (own_props (heap_of s) (VRef (options s))).
Abbreviation cache_entries s := (own_props (heap_of s) (VRef (cache s))).

(** The bundled modules are objects that exist when [init] is called and
    have a callable [render]. *)
Definition bundled (s : state) (m : value) : Prop :=
  (∃ l, m = VRef l ∧ l < length (heap_of s)) ∧
  typeof (heap_of s) (prop (heap_of s) m "render") = TFunction.

(** ** Calling code *)

(** The object literal [{k1: v1, ..., kn: vn}] of a caller. *)
Fixpoint define_all (o : value) (kvs : list (string * value)) : M unit :=
  match kvs with
  | [] => ret tt
  | (k, v) :: rest => assign o k v;; define_all o rest
  end.

Definition object_literal (kvs : list (string * value)) : M value :=
  let! l := new_object in
  define_all (VRef l) kvs;;
  ret (VRef l).

(** ** The bundled engines *)

(** Modelled from the spec: the modules [defaults/lodash.js] and
    [defaults/noop.js], which [defaultEngines] requires, are not among the
    sources.  The spec describes each as a descriptor (a record) whose
    [render] is a function; nothing else about them is fixed here.  The
    heap below is the one in which [index.js] has just been loaded: the two
    module objects with their [render] functions, followed by the objects
    of [engines.options = {}] and [engines.cache = {}]. *)
Definition lodash_render : value := VRef 0.
Definition lodash_module : value := VRef 1.
Definition noop_render : value := VRef 2.
Definition noop_module : value := VRef 3.

Definition boot : state :=
  State [ Obj true ∅; Obj false {[ "render" := lodash_render ]};
          Obj true ∅; Obj false {[ "render" := noop_render ]};
          plain; plain ]
        4 5.

(** The registry after [engines.init()] on the freshly loaded module. *)
Definition state_of {A} (r : outcome A) : state :=
  match r with Return _ s | Throw _ s | Unmodelled s => s end.

Definition initialized : state :=
  state_of (init lodash_module noop_module VUndefined boot).

(** ** States used in the examples *)

(** [register("x", {})] on the initialized registry. *)
Definition with_empty_object : state := state_of (object_literal [] initialized).

(** A function with a [render] of its own, as [consolidate.handlebars]
    is: the object at 14 is the function, its [render] is the function at
    13. *)
Definition with_callable_engine : state :=
  State (heap_of initialized ++ [Obj true ∅; Obj true {[ "render" := VRef 13 ]}])
        (options initialized) (cache initialized).

(** [load({hbs: {render: fn1}, txt: {}})] and [load({a: {render: 1}})]: the
    function [fn1] is at 13, the three object literals are at 14, 15 and
    16. *)
Definition with_engines : state :=
  State (heap_of initialized ++
           [ Obj true ∅; Obj false {[ "render" := VRef 13 ]}; plain;
             Obj false {[ "render" := VNum 1 ]} ])
        (options initialized) (cache initialized).

(** [init({a: 1})] on the freshly loaded module. *)
Definition with_options : state := state_of (object_literal [("a", VNum 1)] boot).

(** An Express-style engine: the object at 14 has [render] and
    [__express], both the function at 13. *)
Definition with_express_engine : state :=
  State (heap_of initialized ++
           [ Obj true ∅;
             Obj false {[ "render" := VRef 13; "__express" := VRef 13 ]} ])
        (options initialized) (cache initialized).

(** ** The remaining operations of [index.js] *)

(** What a chainable method hands back: a value it has read, or [engines]
    itself. *)
Inductive returned :=
| Value (v : value)
| Chain.

(** [engines.options[key] = value] for a string [key].  The name
    [__proto__] is an own property only where the store already has one;
    otherwise the assignment goes to the setter of [Object.prototype],
    which ignores a primitive and replaces the prototype by an object or
    [null]. *)
Definition put_option (key : string) (value : value) : M unit :=
  λ s, if negb (ordinary_options s) then Unmodelled s
       else if decide (key = "__proto__") then
         if owns_proto (heap_of s) (options s)
         then assign (VRef (options s)) key value s
         else match value with
              | VNull | VRef _ => Unmodelled s
              | _ => Return tt s
              end
       else assign (VRef (options s)) key value s.

(** [engines.option(key, value)], with [args] all the arguments of the
    call.  One string reads.  An object (or [null]) as [key] is merged
    into the options store in place; when more arguments follow, lodash
    reads them as further sources, as a guard or as a customizer,
    depending on their types and on its version.  Anything else assigns
    [engines.options[key] = value]; a key that is neither a string nor an
    object is converted to a property name by the host. *)
Definition option_call (args : list value) : M returned :=
  let key := nth 0 args VUndefined in
  let value := nth 1 args VUndefined in
  match key, args with
  | VStr k, [_] =>
      λ s, match option_read s k with
           | Some v => Return (Value v) s
           | None => Unmodelled s
           end
  | _, _ =>
      let! ty := type_of key in
      if decide (ty = TObject) then
        match args with
        | [_] =>
            let! o := read_options in
            merge_into o key;;
            ret Chain
        | _ => unmodelled
        end
      else
        match key with
        | VStr k => put_option k value;; ret Chain
        | _ => unmodelled
        end
  end.

(** [engines(options)]: the exported function initializes and hands back
    itself. *)
Definition engines (lodash_module noop_module opts : value) : M returned :=
  init lodash_module noop_module opts;;
  ret Chain.

(** ** Sequences of calls *)

(** A call of one of the public methods. *)
Inductive call :=
| CallRegister (ext : string) (args : list value)
| CallLoad (entries : list (string * value))
| CallClear (ext : value)
| CallExtend (obj : value)
| CallOption (args : list value)
| CallInit (opts : value).

(** The registry after a call that returned or threw; there is none when
    the call leaves what is represented here. *)
Definition settled_state {A} (r : outcome A) : option state :=
  match r with
  | Return _ s | Throw _ s => Some s
  | Unmodelled _ => None
  end.

Definition perform (lodash_module noop_module : value) (c : call) (s : state)
    : option state :=
  match c with
  | CallRegister ext args => settled_state (register ext args s)
  | CallLoad entries => settled_state (load entries s)
  | CallClear ext => clear s ext
  | CallExtend obj => settled_state (extend obj s)
  | CallOption args => settled_state (option_call args s)
  | CallInit opts => settled_state (init lodash_module noop_module opts s)
  end.

Fixpoint perform_all (lodash_module noop_module : value) (calls : list call)
    (s : state) : option state :=
  match calls with
  | [] => Some s
  | c :: rest =>
      s' ← perform lodash_module noop_module c s;
      perform_all lodash_module noop_module rest s'
  end.

(** The two stores are two different objects of the heap. *)
Definition stores_apart (s : state) : Prop :=
  options s < length (heap_of s) ∧
  cache s < length (heap_of s) ∧
  options s ≠ cache s.

(** A call that leaves [engines.options] and [engines.cache] pointing
    where they did and frees nothing. *)
Definition grows (s s' : state) : Prop :=
  options s' = options s ∧ cache s' = cache s ∧
  length (heap_of s) ≤ length (heap_of s').

Definition keeps {A} (c : M A) : Prop := ∀ s, grows s (state_of (c s)).

(** A descriptor that has been through [register] once: decorating it
    again writes back what it already holds. *)
Definition settled (h : heap) (l : loc) : Prop :=
  truthy (prop h (VRef l) "options") = true ∧
  is_Some (own_props h (VRef l) !! "options") ∧
  if callable (deref h l)
  then is_Some (own_props h (VRef l) !! "render")
  else ∃ x, own_props h (VRef l) !! "renderFile" = Some x ∧
            js_or x (prop h (VRef l) "__express") = x.

(** The initialized registry with the option [a] set to 1. *)
Definition with_options_set : state :=
  State (store (heap_of initialized) (options initialized) "a" (VNum 1))
        (options initialized) (cache initialized).

(** * Properties *)

(** ** The heap *)

Section HeapLemmas.
Implicit Types (h : heap) (l : loc) (v x : value) (k : string) (o : object).

Lemma deref_alloc h l : deref (h ++ [plain]) l = deref h l.
Proof.
  unfold deref. destruct (decide (l < length h)) as [Hlt|Hge].
  - by rewrite lookup_app_l.
  - rewrite (lookup_ge_None_2 h l) by lia.
    destruct (decide (l = length h)) as [->|Hne].
    + by rewrite list_lookup_middle.
    + rewrite lookup_ge_None_2; [done|]. rewrite length_app. simpl. lia.
Qed.

Lemma deref_fresh h l : length h ≤ l → deref h l = plain.
Proof. intros. unfold deref. by rewrite lookup_ge_None_2. Qed.

Lemma deref_insert h l o l' :
  deref (<[l := o]> h) l' = if decide (l' = l ∧ l < length h) then o else deref h l'.
Proof.
  unfold deref. rewrite list_lookup_insert.
  destruct (decide (l = l' ∧ l < length h)) as [[E ?]|Hn];
    destruct (decide (l' = l ∧ l < length h)) as [[E' ?]|Hn']; naive_solver.
Qed.

Lemma deref_store h l k x l' :
  deref (store h l k x) l' =
    if decide (l' = l ∧ l < length h)
    then Obj (callable (deref h l)) (<[k := x]> (props (deref h l)))
    else deref h l'.
Proof. apply deref_insert. Qed.

Lemma deref_store_ne h l k x l' : l' ≠ l → deref (store h l k x) l' = deref h l'.
Proof. intros. rewrite deref_store. destruct (decide _) as [[? _]|]; done. Qed.

Lemma callable_store h l k x l' :
  callable (deref (store h l k x) l') = callable (deref h l').
Proof.
  rewrite deref_store. destruct (decide _) as [[E _]|]; [by rewrite E|done].
Qed.

Lemma length_store h l k x : length (store h l k x) = length h.
Proof. apply length_insert. Qed.

Lemma typeof_alloc h v : typeof (h ++ [plain]) v = typeof h v.
Proof. destruct v; simpl; try done. by rewrite deref_alloc. Qed.

Lemma typeof_store h l k x v : typeof (store h l k x) v = typeof h v.
Proof. destruct v; simpl; try done. by rewrite callable_store. Qed.

Lemma own_props_alloc h v : own_props (h ++ [plain]) v = own_props h v.
Proof. destruct v; try done. unfold own_props. by rewrite deref_alloc. Qed.

Lemma own_props_store h l k x v :
  own_props (store h l k x) v =
    if decide (v = VRef l ∧ l < length h) then <[k := x]> (own_props h v)
    else own_props h v.
Proof.
  destruct v as [| | | | | |l0];
    try (destruct (decide (_ = VRef l ∧ _)) as [[? _]|_]; done).
  unfold own_props. rewrite deref_store.
  destruct (decide (l0 = l ∧ l < length h)) as [[E ?]|Hn];
    destruct (decide (_ = VRef l ∧ _)) as [[E' ?]|Hn']; naive_solver.
Qed.

Lemma own_props_store_ne h l k x v :
  v ≠ VRef l → own_props (store h l k x) v = own_props h v.
Proof. intros. rewrite own_props_store. destruct (decide _) as [[? _]|]; done. Qed.

Lemma prop_primitive h v k : (∀ l, v ≠ VRef l) → prop h v k = VUndefined.
Proof. intros Hv. destruct v; try done. by destruct (Hv l). Qed.

Lemma prop_alloc h v k : prop (h ++ [plain]) v k = prop h v k.
Proof. unfold prop. by rewrite own_props_alloc. Qed.

Lemma prop_store h l k x v k' :
  prop (store h l k x) v k' =
    if decide (v = VRef l ∧ l < length h ∧ k' = k) then x else prop h v k'.
Proof.
  unfold prop. rewrite own_props_store.
  destruct (decide (v = VRef l ∧ l < length h)) as [[E ?]|Hn];
    destruct (decide (_ ∧ _ ∧ k' = k)) as [(? & ? & E')|Hn']; try naive_solver.
  - subst k'. by rewrite lookup_insert_eq.
  - rewrite lookup_insert_ne; [done|naive_solver].
Qed.

Lemma prop_store_other h l k x v k' :
  k' ≠ k → prop (store h l k x) v k' = prop h v k'.
Proof. intros. rewrite prop_store. destruct (decide _) as [(_ & _ & ?)|]; done. Qed.

Lemma prop_store_same h l k v :
  prop (store h l k (prop h (VRef l) k)) v k = prop h v k.
Proof. rewrite prop_store. destruct (decide _) as [(-> & _ & _)|]; done. Qed.

Lemma prop_store_hit h l k x :
  l < length h → prop (store h l k x) (VRef l) k = x.
Proof. intros. rewrite prop_store. destruct (decide _) as [|[]]; done. Qed.

Lemma lookup_render_store h l k x v :
  k ≠ "render" →
  own_props (store h l k x) v !! "render" = own_props h v !! "render".
Proof.
  intros Hk. rewrite own_props_store. destruct (decide _); [|done].
  by rewrite lookup_insert_ne.
Qed.
End HeapLemmas.

(** ** Decorating a descriptor *)

Section Decorate.
Implicit Types (h : heap) (l : loc) (v x opts : value) (k : string).

Lemma decorate_length h opts l : length h ≤ length (decorate h opts l).
Proof.
  unfold decorate. destruct (callable _), (truthy _);
    rewrite ?length_store, ?length_app, ?length_store; simpl; lia.
Qed.

Lemma decorate_callable h opts l l' :
  callable (deref (decorate h opts l) l') = callable (deref h l').
Proof.
  unfold decorate. destruct (callable (deref h l)), (truthy _);
    by rewrite ?callable_store, ?deref_alloc, ?callable_store.
Qed.

Lemma decorate_typeof h opts l v : typeof (decorate h opts l) v = typeof h v.
Proof. destruct v; simpl; try done. by rewrite decorate_callable. Qed.

(** Only the descriptor itself is written. *)
Lemma decorate_frame h opts l l' :
  l' ≠ l → deref (decorate h opts l) l' = deref h l'.
Proof.
  intros Hne. unfold decorate. destruct (callable (deref h l)), (truthy _);
    by rewrite ?deref_store_ne, ?deref_alloc, ?deref_store_ne.
Qed.

Lemma decorate_own_props_ne h opts l v :
  v ≠ VRef l → own_props (decorate h opts l) v = own_props h v.
Proof.
  destruct v as [| | | | | |l']; try done. intros Hne. unfold own_props.
  rewrite decorate_frame; [done|congruence].
Qed.

(** The [render] of the descriptor is what it was. *)
Lemma decorate_render h opts l v :
  prop (decorate h opts l) v "render" = prop h v "render".
Proof.
  unfold decorate. destruct (callable (deref h l)), (truthy _);
    rewrite ?(prop_store_other _ _ "options"), ?prop_alloc,
      ?(prop_store_other _ _ "renderFile"), ?prop_store_same by done; done.
Qed.

(** [engine.render = fn.render] turns an absent [render] into an own
    property holding [undefined]; for a descriptor that owns [render]
    nothing changes hands. *)
Lemma decorate_owns_render h opts l v :
  (v = VRef l → is_Some (own_props h v !! "render")) →
  own_props (decorate h opts l) v !! "render" = own_props h v !! "render".
Proof.
  intros Hown. unfold decorate. destruct (callable (deref h l)), (truthy _);
    rewrite ?(lookup_render_store _ _ "options"), ?own_props_alloc,
      ?(lookup_render_store _ _ "renderFile") by done; try done.
  all: rewrite own_props_store; destruct (decide _) as [[E ?]|]; [|done].
  all: destruct (Hown E) as [r Hr]; unfold prop; subst v; rewrite Hr; simpl.
  all: by rewrite lookup_insert_eq.
Qed.
End Decorate.

(** ** [register], case by case *)

Lemma bind_eq {A B} (c : M A) (k : A → M B) (s : state) :
  bind c k s = match c s with
               | Return a s' => k a s'
               | Throw e s' => Throw e s'
               | Unmodelled s' => Unmodelled s'
               end.
Proof. done. Qed.

(** One step of a call: the first effect of the sequence is run. *)
Ltac step :=
  rewrite bind_eq;
  cbv beta iota delta
    [new_object member assign type_of read_cache read_options write_cache
     write_options ret throw heap_of options cache nullish fst snd noop].

Section Register.
Implicit Types (h : heap) (l : loc) (v x opts : value) (k ext : string)
  (args : list value) (s : state).

Lemma dotted_shape ext : ∃ r, dotted ext = String "." r.
Proof.
  unfold dotted. destruct ext as [|c r]; simpl; [by eexists|].
  destruct (Ascii.eqb c ".") eqn:E; simpl; [|by eexists].
  apply Ascii.eqb_eq in E as ->. by eexists.
Qed.

Lemma dotted_not_render ext : dotted ext ≠ "render".
Proof. destruct (dotted_shape ext) as [r ->]. done. Qed.

Lemma dotted_not_star ext : dotted ext ≠ "*".
Proof. destruct (dotted_shape ext) as [r ->]. done. Qed.

Lemma entry_heap_deref h args l : deref (entry_heap h args) l = deref h l.
Proof. destruct args as [|a [|b r]]; simpl; by rewrite ?deref_alloc. Qed.

Lemma entry_heap_typeof h args v : typeof (entry_heap h args) v = typeof h v.
Proof. destruct v; simpl; try done. by rewrite entry_heap_deref. Qed.

Lemma entry_heap_own_props h args v : own_props (entry_heap h args) v = own_props h v.
Proof. destruct v; try done. unfold own_props. by rewrite entry_heap_deref. Qed.

Lemma entry_heap_prop h args v k : prop (entry_heap h args) v k = prop h v k.
Proof. unfold prop. by rewrite entry_heap_own_props. Qed.

Lemma entry_heap_length h args : length h < length (entry_heap h args).
Proof. destruct args as [|a [|b r]]; simpl; rewrite ?length_app; simpl; lia. Qed.

(** A missing or [null] engine: the member access on it throws before a
    descriptor is resolved. *)
Lemma register_nullish ext args s :
  nullish (engine_arg args) = true →
  register ext args s =
    Throw TypeError (State (entry_heap (heap_of s) args) (options s) (cache s)).
Proof.
  destruct s as [h o c]. cbn [heap_of options cache]. intros Hn. unfold register.
  destruct args as [|a [|b r]]; cbn [engine_arg nth entry_heap] in *.
  - repeat step. cbn [typeof]. by repeat step.
  - destruct a; try done; repeat step; cbn [typeof js_or truthy]; by repeat step.
  - destruct b; try done; repeat step; cbn [typeof js_or truthy]; by repeat step.
Qed.

Lemma fresh_has_no_render h x :
  prop (store (h ++ [plain]) (length h) "options" x) (VRef (length h)) "render"
  = VUndefined.
Proof.
  rewrite prop_store_other by done. rewrite prop_alloc.
  unfold prop, own_props. by rewrite deref_fresh.
Qed.

(** A primitive engine: the descriptor is the fresh [{}], which has no
    [render]. *)
Lemma register_primitive ext args s :
  nullish (engine_arg args) = false →
  (∀ l, engine_arg args ≠ VRef l) →
  ∃ h', register ext args s = Throw InvalidEngine (State h' (options s) (cache s)) ∧
        ∀ l, l ≠ length (heap_of s) → deref h' l = deref (heap_of s) l.
Proof.
  destruct s as [h o c]. cbn [heap_of options cache]. intros Hn Hr.
  assert (Hfresh : prop h (VRef (length h)) "render" = VUndefined)
    by (unfold prop, own_props; by rewrite deref_fresh).
  unfold register.
  destruct args as [|a [|b r]]; cbn [engine_arg nth] in *; try done.
  - destruct a; try done; try (by destruct (Hr l)).
    all: repeat step; cbn [typeof]; repeat step.
    all: rewrite (prop_primitive _ _ "options") by done; cbn [js_or truthy].
    all: repeat step.
    all: rewrite prop_store_other by done; rewrite !prop_alloc, Hfresh.
    all: cbn [typeof]; destruct (decide _) as [|_]; [done|].
    all: eexists; (split; [done|]); intros l Hl.
    all: by rewrite deref_store_ne, !deref_alloc.
  - destruct b; try done; try (by destruct (Hr l)).
    all: repeat step; cbn [typeof]; repeat step.
    all: rewrite (prop_primitive _ _ "options") by done.
    all: change (js_or VUndefined a) with a.
    all: destruct (truthy a) eqn:Ht; repeat step.
    all: rewrite prop_store_other by done; rewrite ?prop_alloc, Hfresh.
    all: cbn [typeof]; destruct (decide _) as [|_]; [done|].
    all: eexists; (split; [done|]); intros l Hl.
    all: by rewrite deref_store_ne, !deref_alloc.
Qed.

(** An object or function engine: it is decorated, validated and, when
    its [render] is callable, stored. *)
Lemma register_ref ext args l s :
  engine_arg args = VRef l →
  let h1 := entry_heap (heap_of s) args in
  let h4 := decorate h1 (options_arg (heap_of s) args) l in
  register ext args s =
    if decide (typeof h4 (prop h4 (VRef l) "render") = TFunction)
    then Return tt (State (store h4 (cache s) (dotted ext) (VRef l)) (options s) (cache s))
    else Throw InvalidEngine (State h4 (options s) (cache s)).
Proof.
  destruct s as [h o c]. cbn [heap_of options cache]. intros Hfn.
  unfold decorate, register.
  destruct args as [|a [|b rest]]; cbn [engine_arg nth] in Hfn; [done| |]; subst;
    cbn [entry_heap options_arg nth].
  - repeat step. cbn [typeof].
    replace (length (h ++ [plain])) with (S (length h))
      by (rewrite length_app; simpl; lia).
    destruct (callable _) eqn:Hc; repeat step; cbn [js_or truthy]; repeat step.
    + destruct (truthy _) eqn:Ht; repeat step; rewrite ?length_store;
        by destruct (decide _); repeat step.
    + destruct (truthy _) eqn:Ht; repeat step; rewrite ?length_store;
        by destruct (decide _); repeat step.
  - repeat step. cbn [typeof].
    destruct (callable _) eqn:Hc; repeat step; cbn [js_or truthy]; repeat step.
    + destruct (truthy _) eqn:Ht; repeat step; rewrite ?length_store;
        by destruct (decide _); repeat step.
    + destruct (truthy _) eqn:Ht; repeat step; rewrite ?length_store;
        by destruct (decide _); repeat step.
Qed.

(** Whether the resolved descriptor has a callable [render] can be told
    from the heap before the call. *)
Lemma decorated_render_type h args opts l :
  let h4 := decorate (entry_heap h args) opts l in
  typeof h4 (prop h4 (VRef l) "render") = typeof h (prop h (VRef l) "render").
Proof.
  simpl. by rewrite decorate_typeof, decorate_render, entry_heap_typeof, entry_heap_prop.
Qed.
End Register.

(** ** Looking up and clearing *)

(** C10.  [get] called with a falsy value (the empty string, [undefined],
    [null], [false], [0], [NaN]) returns the cache mapping itself, the same
    result as a call without argument; no key is looked up, so the
    wildcard entry plays no part. *)
Theorem get_falsy_is_whole_cache (s : state) (ext : value) :
  truthy ext = false →
  get s ext = Some (VRef (cache s)) ∧ get s ext = get s VUndefined.
Proof. intros Hf. unfold get. rewrite Hf. done. Qed.

Lemma get_falsy_is_whole_cache_witness :
  truthy (VStr "") = false ∧
  get initialized (VStr "") = Some (VRef (cache initialized)) ∧
  get initialized (VStr "") = get initialized VUndefined.
Proof. split; [reflexivity|]. apply get_falsy_is_whole_cache. reflexivity. Defined.

Lemma get_string (s : state) (e : string) :
  e ≠ "" →
  get s (VStr e) =
    Some (js_or (prop (heap_of s) (VRef (cache s)) (dotted e))
                (prop (heap_of s) (VRef (cache s)) "*")).
Proof.
  intros He. unfold get, js_or. simpl.
  destruct (String.eqb_spec e ""); [done|]. simpl.
  by destruct (truthy _).
Qed.

(** C7, as the code has it.  For every non-empty extension [e] without a
    leading dot, [get(e)] and [get("." + e)] return the same result. *)
Theorem get_ignores_leading_dot (s : state) (e : string) :
  e ≠ "" → first_is_not_dot e = true →
  get s (VStr e) = get s (VStr ("." ++ e)).
Proof.
  intros He Hd. rewrite !get_string by done.
  unfold dotted. rewrite Hd. done.
Qed.

Lemma get_ignores_leading_dot_witness :
  "tmpl" ≠ "" ∧ first_is_not_dot "tmpl" = true ∧
  get initialized (VStr "tmpl") = get initialized (VStr ".tmpl").
Proof.
  split; [done|]. split; [reflexivity|].
  apply get_ignores_leading_dot; [done|reflexivity].
Defined.

(** C7, counterexample.  The empty string has no leading dot, yet
    [get("")] is the whole cache mapping while [get(".")] is the result of
    a lookup. *)
Lemma get_empty_differs_from_dot :
  first_is_not_dot "" = true ∧
  get initialized (VStr "") = Some (VRef (cache initialized)) ∧
  get initialized (VStr ("." ++ "")) = Some VUndefined ∧
  get initialized (VStr "") ≠ get initialized (VStr ("." ++ "")).
Proof. vm_compute. repeat split; congruence. Qed.

Section Clear.
Implicit Types (h : heap) (l : loc) (k : string).

Lemma own_props_remove h l k v :
  own_props (remove h l k) v =
    if decide (v = VRef l ∧ l < length h) then delete k (own_props h v)
    else own_props h v.
Proof.
  destruct v as [| | | | | |l0];
    try (destruct (decide (_ = VRef l ∧ _)) as [[? _]|_]; done).
  unfold own_props, remove. rewrite deref_insert.
  destruct (decide (l0 = l ∧ l < length h)) as [[E ?]|Hn];
    destruct (decide (_ = VRef l ∧ _)) as [[E' ?]|Hn']; naive_solver.
Qed.

Lemma own_props_dangling h l : length h ≤ l → own_props h (VRef l) = ∅.
Proof. intros. unfold own_props. by rewrite deref_fresh. Qed.

Lemma remove_absent h l k :
  own_props h (VRef l) !! k = None → remove h l k = h.
Proof.
  intros Hk. unfold remove. destruct (decide (l < length h)) as [Hl|Hl].
  - apply list_insert_id. unfold own_props, deref in *.
    destruct (lookup_lt_is_Some_2 h l Hl) as [o Ho]. rewrite Ho in *. simpl in *.
    rewrite delete_id by done. by destruct o.
  - apply list_insert_ge. lia.
Qed.
End Clear.

(** C6, as the code has it.  Called without argument, or with any falsy
    value such as the empty string, [clear] replaces the cache by a fresh
    empty mapping and leaves the options store alone.  Called with a
    non-empty extension it deletes the one dot-normalized key: every other
    entry of the cache stays, the options store stays, and when the key is
    absent the whole state is unchanged. *)
Theorem clear_effect (s : state) (ext : value) :
  (truthy ext = false →
     ∃ s', clear s ext = Some s' ∧
           own_props (heap_of s') (VRef (cache s')) = ∅ ∧
           options s' = options s ∧
           own_props (heap_of s') (VRef (options s')) =
             own_props (heap_of s) (VRef (options s))) ∧
  (∀ e, ext = VStr e → e ≠ "" → options s ≠ cache s →
     ∃ s', clear s ext = Some s' ∧
           cache s' = cache s ∧
           own_props (heap_of s') (VRef (cache s')) =
             delete (dotted e) (own_props (heap_of s) (VRef (cache s))) ∧
           options s' = options s ∧
           own_props (heap_of s') (VRef (options s')) =
             own_props (heap_of s) (VRef (options s)) ∧
           (own_props (heap_of s) (VRef (cache s)) !! dotted e = None → s' = s)).
Proof.
  destruct s as [h o c]. simpl. split.
  - intros Hf. unfold clear. rewrite Hf. eexists. split; [done|]. simpl.
    split; [|split; [done|]].
    + unfold own_props, deref. by rewrite list_lookup_middle.
    + apply own_props_alloc.
  - intros e -> He Hoc. unfold clear. simpl.
    destruct (String.eqb_spec e ""); [done|]. simpl.
    eexists. split; [done|]. simpl. repeat split.
    + rewrite own_props_remove. destruct (decide _) as [|Hn]; [done|].
      rewrite own_props_dangling; [by rewrite delete_empty|].
      destruct (decide (c < length h)); [|lia]. naive_solver.
    + rewrite own_props_remove. destruct (decide _) as [[E _]|]; [congruence|done].
    + intros Hk. by rewrite remove_absent.
Qed.

Lemma clear_effect_witness :
  options initialized ≠ cache initialized ∧
  ∃ s', clear initialized (VStr "tmpl") = Some s' ∧
        own_props (heap_of s') (VRef (cache s')) =
          delete ".tmpl" (own_props (heap_of initialized) (VRef (cache initialized))) ∧
        own_props (heap_of s') (VRef (options s')) =
          own_props (heap_of initialized) (VRef (options initialized)).
Proof.
  split; [vm_compute; lia|].
  destruct (clear_effect initialized (VStr "tmpl")) as [_ H].
  destruct (H "tmpl") as (s' & Hs & _ & Hc & _ & Ho & _); [reflexivity|done|vm_compute; lia|].
  exists s'. auto.
Defined.

(** C6, counterexample.  The empty string is an extension argument, but
    [clear("")] does not remove one entry: it drops the whole cache, the
    [.tmpl] entry included. *)
Lemma clear_empty_string_drops_everything :
  prop (heap_of initialized) (VRef (cache initialized)) ".tmpl" = lodash_module ∧
  ∃ s', clear initialized (VStr "") = Some s' ∧
        own_props (heap_of s') (VRef (cache s')) = ∅ ∧
        own_props (heap_of s') (VRef (cache s')) ≠
          delete (dotted "") (own_props (heap_of initialized) (VRef (cache initialized))).
Proof.
  split; [reflexivity|]. eexists. split; [reflexivity|]. split; [reflexivity|].
  intros H. apply (f_equal (λ m, m !! ".tmpl")) in H. vm_compute in H. discriminate.
Qed.
(** ** The options store *)

Section Extend.
Implicit Types (h : heap) (l t : loc) (v obj : value) (k : string) (s : state).

Lemma own_props_insert h l o v :
  own_props (<[l := o]> h) v =
    if decide (v = VRef l ∧ l < length h) then props o else own_props h v.
Proof.
  destruct v as [| | | | | |l0];
    try (destruct (decide (_ = VRef l ∧ _)) as [[? _]|_]; done).
  unfold own_props. rewrite deref_insert.
  destruct (decide (l0 = l ∧ l < length h)) as [[E ?]|Hn];
    destruct (decide (_ = VRef l ∧ _)) as [[E' ?]|Hn']; naive_solver.
Qed.

Lemma own_props_new h : own_props (h ++ [plain]) (VRef (length h)) = ∅.
Proof. unfold own_props, deref. by rewrite list_lookup_middle. Qed.

(** A source without a key [__proto__], and which is no string with
    characters, is merged entry by entry. *)
Lemma merge_into_entries t v s :
  callable (deref (heap_of s) t) = false →
  own_props (heap_of s) v !! "__proto__" = None →
  (∀ x, v = VStr x → x = "") →
  merge_into t v s =
    Return tt (State (<[t := Obj false (own_props (heap_of s) v ∪
                                        props (deref (heap_of s) t))]> (heap_of s))
                     (options s) (cache s)).
Proof.
  intros Hc Hp Hs. unfold merge_into. cbv zeta. rewrite Hc.
  assert (He : source_entries (heap_of s) v = Some (own_props (heap_of s) v)).
  { destruct v as [| | | | |x|l]; try done. by rewrite (Hs x eq_refl). }
  rewrite He. cbn. unfold assigned. by rewrite Hp.
Qed.

(** [merge_into] writes its target, an object that is no function, and
    nothing else. *)
Lemma merge_into_returns t v s s' :
  merge_into t v s = Return tt s' →
  callable (deref (heap_of s) t) = false ∧
  ∃ m, s' = State (<[t := Obj false m]> (heap_of s)) (options s) (cache s).
Proof.
  unfold merge_into. cbv zeta. destruct (callable _); [done|].
  destruct (_ ≫= _) as [m|]; [|done].
  intros [= <-]. split; [done|]. by eexists.
Qed.

(** [extend] allocates the new options store; no existing object is
    written. *)
Lemma extend_frame obj s s' :
  extend obj s = Return tt s' →
  options s' = length (heap_of s) ∧
  cache s' = cache s ∧
  length (heap_of s') = S (length (heap_of s)) ∧
  callable (deref (heap_of s') (length (heap_of s))) = false ∧
  ∀ l, l ≠ length (heap_of s) → deref (heap_of s') l = deref (heap_of s) l.
Proof.
  destruct s as [h o c]. unfold extend. do 3 step.
  assert (Hlen : length (h ++ [plain]) = S (length h))
    by (rewrite length_app; simpl; lia).
  assert (Hnew : deref (h ++ [plain]) (length h) = plain)
    by (unfold deref; by rewrite list_lookup_middle).
  destruct (decide _) as [_|_].
  - rewrite bind_eq. unfold customize. cbn [heap_of].
    destruct (decide _) as [_|_]; [|done].
    unfold write_options. intros [= <-]. cbn [heap_of options cache].
    rewrite Hnew. repeat split; try done. intros l _. apply deref_alloc.
  - rewrite !bind_eq.
    destruct (merge_into _ (VRef o) _) as [[] s1| |] eqn:H1; [|done..].
    destruct (merge_into _ obj s1) as [[] s2| |] eqn:H2; [|done..].
    apply merge_into_returns in H1 as (_ & m1 & ->).
    apply merge_into_returns in H2 as (_ & m2 & ->).
    cbn [heap_of options cache]. unfold write_options.
    intros [= <-]. cbn [heap_of options cache].
    rewrite !length_insert, Hlen. rewrite !deref_insert.
    repeat split; try done.
    + destruct (decide _) as [_|Hn]; [done|]. rewrite length_insert in Hn. lia.
    + intros l Hl. rewrite !deref_insert.
      do 2 (destruct (decide _) as [[? _]|_]; [done|]). apply deref_alloc.
Qed.

(** A plain mapping is merged into a copy of the options store. *)
Lemma extend_plain obj s :
  plain_mapping (heap_of s) obj →
  own_props (heap_of s) (VRef (options s)) !! "__proto__" = None →
  ∃ s', extend obj s = Return tt s' ∧
        own_props (heap_of s') (VRef (options s')) =
          own_props (heap_of s) obj ∪ own_props (heap_of s) (VRef (options s)).
Proof.
  intros Hobj Hopt. destruct s as [h o c]. cbn [heap_of options cache] in *.
  unfold extend. do 3 step.
  assert (Hlen : length (h ++ [plain]) = S (length h))
    by (rewrite length_app; simpl; lia).
  assert (Hnew : deref (h ++ [plain]) (length h) = plain)
    by (unfold deref; by rewrite list_lookup_middle).
  destruct (decide _) as [Hty|_].
  { destruct Hobj as [Hf _]. by rewrite typeof_alloc in Hty. }
  destruct Hobj as (_ & Hp & Hs).
  rewrite !bind_eq.
  rewrite merge_into_entries; cbn [heap_of options cache].
  2: by rewrite Hnew.
  2: by rewrite own_props_alloc.
  2: done.
  rewrite merge_into_entries; cbn [heap_of options cache].
  2:{ rewrite deref_insert. destruct (decide _); [done|by rewrite Hnew]. }
  2:{ rewrite own_props_insert, !own_props_alloc.
      destruct (decide _) as [[-> _]|_]; [|done].
      cbn [props]. rewrite Hnew. cbn [props plain].
      rewrite (right_id_L ∅ (∪)). exact Hopt. }
  2: done.
  unfold write_options. eexists. split; [done|]. cbn [heap_of options cache].
  rewrite own_props_insert.
  destruct (decide _) as [_|Hn]; [|rewrite length_insert in Hn; naive_solver lia].
  cbn [props]. rewrite own_props_insert, deref_insert.
  destruct (decide (length h = length h ∧ _)) as [_|Hn]; [|naive_solver lia].
  cbn [props]. rewrite !own_props_alloc, Hnew.
  cbn [props plain]. rewrite (right_id_L ∅ (∪)).
  destruct (decide (obj = VRef (length h) ∧ _)) as [[-> _]|_]; cbn [props].
  - rewrite (own_props_dangling h (length h)) by lia.
    rewrite (left_id_L ∅ (∪)). apply (idemp_L (∪)).
  - done.
Qed.

Lemma object_literal_one k v s :
  object_literal [(k, v)] s =
    Return (VRef (length (heap_of s)))
           (State (store (heap_of s ++ [plain]) (length (heap_of s)) k v)
                  (options s) (cache s)).
Proof. done. Qed.

Lemma own_props_literal_one h k v :
  own_props (store (h ++ [plain]) (length h) k v) (VRef (length h)) = {[k := v]}.
Proof.
  rewrite own_props_store. destruct (decide _) as [_|Hn].
  - by rewrite own_props_new.
  - rewrite length_app in Hn. simpl in Hn. destruct Hn. split; [done|lia].
Qed.

(** An object literal with one ordinary key is a plain mapping, and
    writing it leaves a store as plain as it was. *)
Lemma literal_one_plain h k v :
  k ≠ "__proto__" →
  plain_mapping (store (h ++ [plain]) (length h) k v) (VRef (length h)).
Proof.
  intros Hk. repeat split; [|by rewrite own_props_literal_one, lookup_singleton_ne|done].
  rewrite typeof_store. unfold typeof, deref.
  by rewrite list_lookup_middle.
Qed.

Lemma literal_one_other h k v o :
  k ≠ "__proto__" →
  own_props h (VRef o) !! "__proto__" = None →
  own_props (store (h ++ [plain]) (length h) k v) (VRef o) !! "__proto__" = None.
Proof.
  intros Hk Ho. rewrite own_props_store, own_props_alloc.
  destruct (decide _); [by rewrite lookup_insert_ne|done].
Qed.
End Extend.

(** C8, as amended.  For an [obj] that is neither a function nor a
    mapping with a key [__proto__] of its own (nor a string with
    characters), and an options store without such a key, [extend(obj)]
    makes the options store the shallow merge of [obj] into the previous
    store: a key of [obj] reads as [obj] has it, any other key reads as
    before.  Hence the calls [extend({a: 1}); extend({b: 2})] accumulate:
    afterwards [option("a")] is [1] and [option("b")] is [2]. *)
Theorem extend_shallow_merge (obj : value) (s : state) :
  plain_mapping (heap_of s) obj →
  option_entries s !! "__proto__" = None →
  (∃ s', extend obj s = Return tt s' ∧
         option_entries s' = own_props (heap_of s) obj ∪ option_entries s ∧
         (ordinary_options s = true →
          ∀ k, option_read s' k =
                 match own_props (heap_of s) obj !! k with
                 | Some v => Some v
                 | None => option_read s k
                 end)) ∧
  (∃ s', (let! a := object_literal [("a", VNum 1)] in
          extend a;;
          let! b := object_literal [("b", VNum 2)] in
          extend b) s = Return tt s' ∧
         option_read s' "a" = Some (VNum 1) ∧
         option_read s' "b" = Some (VNum 2)).
Proof.
  intros Hobj Hopt. split.
  - destruct (extend_plain obj s Hobj Hopt) as (s' & Hrun & He).
    exists s'. split; [exact Hrun|]. split; [exact He|].
    intros Hord k.
    destruct (extend_frame obj s s' Hrun) as (Ho & _ & _ & Hc & _).
    unfold option_read. rewrite He, lookup_union.
    assert (Hord' : ordinary_options s' = true)
      by (unfold ordinary_options; by rewrite Ho, Hc).
    rewrite Hord, Hord'.
    by destruct (own_props (heap_of s) obj !! k),
                (own_props _ (VRef (options s)) !! k).
  - destruct s as [h o c]. cbn [heap_of options cache] in *.
    rewrite bind_eq, object_literal_one. cbn [heap_of options cache].
    set (h1 := store (h ++ [plain]) (length h) "a" (VNum 1)).
    destruct (extend_plain (VRef (length h)) (State h1 o c))
      as (s2 & Hrun2 & He2);
      [by apply literal_one_plain|by apply literal_one_other|].
    destruct (extend_frame _ _ _ Hrun2) as (Ho2 & _ & Hlen2 & _ & _).
    cbn [heap_of options cache] in *.
    rewrite bind_eq, Hrun2, bind_eq, object_literal_one.
    set (h3 := store (heap_of s2 ++ [plain]) (length (heap_of s2)) "b" (VNum 2)).
    assert (Hl1 : length h1 = S (length h))
      by (unfold h1; rewrite length_store, length_app; simpl; lia).
    assert (He3 : own_props h3 (VRef (options s2)) = option_entries s2).
    { unfold h3. rewrite own_props_store_ne by (intros [=]; lia).
      apply own_props_alloc. }
    destruct (extend_plain (VRef (length (heap_of s2))) (State h3 (options s2) (cache s2)))
      as (s4 & Hrun4 & He4); cbn [heap_of options cache].
    { by apply literal_one_plain. }
    { rewrite He3, He2, lookup_union.
      unfold h1 at 1. rewrite own_props_literal_one, lookup_singleton_ne by done.
      pose proof (literal_one_other h "a" (VNum 1) o ltac:(done) Hopt) as Hx.
      fold h1 in Hx. by rewrite Hx. }
    cbn [heap_of options cache] in *. rewrite Hrun4.
    exists s4. split; [done|].
    unfold option_read. rewrite He4, He3, He2.
    unfold h3, h1 at 1. rewrite !own_props_literal_one.
    rewrite !lookup_union, !lookup_singleton_eq, !lookup_singleton_ne by done.
    split; [by destruct (own_props h1 (VRef o) !! "a")|].
    by destruct (own_props h1 (VRef (length h)) !! "b"),
                (own_props h1 (VRef o) !! "b").
Qed.

Lemma extend_shallow_merge_witness :
  plain_mapping (heap_of with_options) (VRef 6) ∧
  option_entries with_options !! "__proto__" = None ∧
  ∃ s', extend (VRef 6) with_options = Return tt s' ∧
        option_entries s' = {[ "a" := VNum 1 ]} ∧
        option_read s' "a" = Some (VNum 1) ∧
        option_read s' "b" = Some VUndefined.
Proof.
  assert (H1 : plain_mapping (heap_of with_options) (VRef 6)) by done.
  assert (H2 : option_entries with_options !! "__proto__" = None) by done.
  split; [exact H1|]. split; [exact H2|].
  destruct (extend_shallow_merge (VRef 6) with_options H1 H2)
    as [(s' & Hrun & He & Hread) _].
  exists s'. split; [exact Hrun|]. split; [rewrite He; by vm_compute|].
  split; rewrite Hread by done; reflexivity.
Defined.

(** C8, the claim as written.  A function passed to [extend] is not
    merged: lodash takes the last argument of [_.extend], when it is a
    function, as the customizer.  On the initialized registry the options
    store is empty, the customizer is never called, and the store stays
    empty: [option("render")] is [undefined] although the function has a
    [render]. *)
Lemma extend_function_is_not_merged :
  typeof (heap_of with_callable_engine) (VRef 14) = TFunction ∧
  own_props (heap_of with_callable_engine) (VRef 14) !! "render" = Some (VRef 13) ∧
  ∃ s', extend (VRef 14) with_callable_engine = Return tt s' ∧
        option_entries s' = ∅ ∧
        option_read s' "render" = Some VUndefined.
Proof.
  split; [reflexivity|]. split; [reflexivity|].
  eexists. split; [vm_compute; reflexivity|].
  split; reflexivity.
Qed.

(** ** Registering *)

Section RegisterOutcome.
Implicit Types (h : heap) (l : loc) (v : value) (k ext : string)
  (args : list value) (s : state).

Lemma register_success ext args l s :
  engine_arg args = VRef l →
  typeof (heap_of s) (prop (heap_of s) (VRef l) "render") = TFunction →
  register ext args s = Return tt (registered s ext args l).
Proof.
  intros Hfn Hty. rewrite (register_ref ext args l s Hfn). cbv zeta.
  rewrite decorated_render_type. by destruct (decide _).
Qed.

Lemma register_failure ext args l s :
  engine_arg args = VRef l →
  typeof (heap_of s) (prop (heap_of s) (VRef l) "render") ≠ TFunction →
  register ext args s = Throw InvalidEngine (rejected s args l).
Proof.
  intros Hfn Hty. rewrite (register_ref ext args l s Hfn). cbv zeta.
  rewrite decorated_render_type. by destruct (decide _).
Qed.

(** [register] returns only for an object or function whose [render] is
    callable. *)
Lemma register_returns_inv ext args s s' :
  register ext args s = Return tt s' →
  ∃ l, engine_arg args = VRef l ∧
       typeof (heap_of s) (prop (heap_of s) (VRef l) "render") = TFunction ∧
       s' = registered s ext args l.
Proof.
  intros Hrun. destruct (engine_arg args) as [| | | | | |l] eqn:Hfn.
  1,2: by rewrite register_nullish in Hrun by (by rewrite Hfn).
  1,2,3,4: destruct (register_primitive ext args s) as (h' & Hthrow & _);
    [by rewrite Hfn|by rewrite Hfn|congruence].
  exists l. split; [done|].
  destruct (decide (typeof (heap_of s) (prop (heap_of s) (VRef l) "render") = TFunction))
    as [Hty|Hty].
  - rewrite (register_success ext args l s Hfn Hty) in Hrun.
    split; [done|congruence].
  - rewrite (register_failure ext args l s Hfn Hty) in Hrun. done.
Qed.

Lemma registered_cache_entry ext args l s :
  cache s < length (heap_of s) →
  prop (heap_of (registered s ext args l)) (VRef (cache s)) (dotted ext) = VRef l.
Proof.
  intros Hc. simpl. apply prop_store_hit.
  pose proof (decorate_length (entry_heap (heap_of s) args)
                (options_arg (heap_of s) args) l).
  pose proof (entry_heap_length (heap_of s) args). lia.
Qed.

Lemma registered_cache ext args l s :
  cache s < length (heap_of s) → l ≠ cache s →
  own_props (heap_of (registered s ext args l)) (VRef (cache s)) =
    <[dotted ext := VRef l]> (own_props (heap_of s) (VRef (cache s))).
Proof.
  intros Hc Hl. simpl. rewrite own_props_store.
  pose proof (decorate_length (entry_heap (heap_of s) args)
                (options_arg (heap_of s) args) l).
  pose proof (entry_heap_length (heap_of s) args).
  destruct (decide _) as [_|[]]; [|split; [done|lia]].
  rewrite decorate_own_props_ne by congruence.
  by rewrite entry_heap_own_props.
Qed.

Lemma registered_typeof ext args l s v :
  typeof (heap_of (registered s ext args l)) v = typeof (heap_of s) v.
Proof. simpl. by rewrite typeof_store, decorate_typeof, entry_heap_typeof. Qed.

Lemma registered_render ext args l s v :
  prop (heap_of (registered s ext args l)) v "render" = prop (heap_of s) v "render".
Proof.
  simpl. rewrite prop_store_other by (symmetry; apply dotted_not_render).
  by rewrite decorate_render, entry_heap_prop.
Qed.

Lemma registered_owns_render ext args l s v :
  is_Some (own_props (heap_of s) (VRef l) !! "render") →
  own_props (heap_of (registered s ext args l)) v !! "render" =
    own_props (heap_of s) v !! "render".
Proof.
  intros Hown. simpl. rewrite lookup_render_store by apply dotted_not_render.
  rewrite decorate_owns_render; rewrite entry_heap_own_props; [done|].
  by intros ->.
Qed.

Lemma registered_length ext args l s :
  length (heap_of s) < length (heap_of (registered s ext args l)).
Proof.
  simpl. rewrite length_store.
  pose proof (decorate_length (entry_heap (heap_of s) args)
                (options_arg (heap_of s) args) l).
  pose proof (entry_heap_length (heap_of s) args). lia.
Qed.

Lemma rejected_cache args l s :
  VRef l ≠ VRef (cache s) →
  own_props (heap_of (rejected s args l)) (VRef (cache s)) =
    own_props (heap_of s) (VRef (cache s)).
Proof.
  intros Hl. simpl. rewrite decorate_own_props_ne by congruence.
  by rewrite entry_heap_own_props.
Qed.
End RegisterOutcome.

(** C4, as the code has it.  [register] throws the Invalid Engine error
    exactly when a descriptor is resolved (the engine argument is neither
    [undefined] nor [null], for which the call fails earlier with a
    TypeError) and that descriptor has no callable [render].  When
    [register] throws, the cache keeps its identity and all its entries,
    provided the engine argument is not the cache mapping itself. *)
Theorem register_invalid_engine (ext : string) (args : list value) (s : state) :
  ((∃ s', register ext args s = Throw InvalidEngine s') ↔
     nullish (engine_arg args) = false ∧
     typeof (heap_of s) (prop (heap_of s) (engine_arg args) "render") ≠ TFunction) ∧
  (∀ e s', register ext args s = Throw e s' →
     cache s < length (heap_of s) →
     engine_arg args ≠ VRef (cache s) →
     cache s' = cache s ∧
     own_props (heap_of s') (VRef (cache s')) =
       own_props (heap_of s) (VRef (cache s))).
Proof.
  split.
  - destruct (engine_arg args) as [| | | | | |l] eqn:Hfn.
    1,2: rewrite register_nullish by (by rewrite Hfn);
      split; [by intros [? [=]]|by intros [[=] _]].
    1,2,3,4: destruct (register_primitive ext args s) as (h' & Hthrow & _);
      [by rewrite Hfn|by rewrite Hfn|];
      (split; [done|intros _; by eexists]).
    destruct (decide (typeof (heap_of s) (prop (heap_of s) (VRef l) "render") = TFunction))
      as [Hty|Hty].
    + rewrite (register_success ext args l s Hfn Hty).
      split; [by intros [? [=]]|by intros [_ ?]].
    + rewrite (register_failure ext args l s Hfn Hty).
      split; [done|intros _; by eexists].
  - intros e s' Hrun Hc Hne.
    destruct (engine_arg args) as [| | | | | |l] eqn:Hfn.
    1,2: rewrite register_nullish in Hrun by (by rewrite Hfn);
      injection Hrun as _ <-; simpl; by rewrite entry_heap_own_props.
    1,2,3,4: destruct (register_primitive ext args s) as (h' & Hthrow & Hframe);
      [by rewrite Hfn|by rewrite Hfn|];
      rewrite Hthrow in Hrun; injection Hrun as _ <-; simpl;
      (split; [done|]); unfold own_props; rewrite Hframe; [done|lia].
    destruct (decide (typeof (heap_of s) (prop (heap_of s) (VRef l) "render") = TFunction))
      as [Hty|Hty].
    + by rewrite (register_success ext args l s Hfn Hty) in Hrun.
    + rewrite (register_failure ext args l s Hfn Hty) in Hrun.
      injection Hrun as _ <-. split; [done|]. exact (rejected_cache args l s Hne).
Qed.

Lemma register_invalid_engine_witness :
  cache with_empty_object < length (heap_of with_empty_object) ∧
  engine_arg [VRef 13] ≠ VRef (cache with_empty_object) ∧
  ∃ s', register "x" [VRef 13] with_empty_object = Throw InvalidEngine s' ∧
        own_props (heap_of s') (VRef (cache s')) =
          own_props (heap_of with_empty_object) (VRef (cache with_empty_object)).
Proof.
  split; [vm_compute; lia|]. split; [vm_compute; congruence|].
  destruct (register_invalid_engine "x" [VRef 13] with_empty_object) as [Hiff Hframe].
  destruct (proj2 Hiff) as [s' Hs'].
  { split; [reflexivity|]. vm_compute. congruence. }
  exists s'. split; [exact Hs'|].
  apply (Hframe InvalidEngine s' Hs'); [vm_compute; lia|vm_compute; congruence].
Defined.

(** C4, counterexample.  Passing the cache mapping itself as the engine
    ([register("x", engines.get())]) throws the Invalid Engine error, yet
    the cache has been written: it has gained [renderFile] and
    [options]. *)
Lemma register_rejected_cache_is_written :
  ∃ s', register "x" [VRef (cache initialized)] initialized = Throw InvalidEngine s' ∧
        own_props (heap_of initialized) (VRef (cache initialized)) !! "options" = None ∧
        own_props (heap_of s') (VRef (cache s')) !! "options" = Some (VRef 14) ∧
        own_props (heap_of s') (VRef (cache s')) ≠
          own_props (heap_of initialized) (VRef (cache initialized)).
Proof.
  eexists. split; [vm_compute; reflexivity|].
  split; [reflexivity|]. split; [reflexivity|].
  intros H. apply (f_equal (λ m, m !! "options")) in H. vm_compute in H. discriminate.
Qed.

Lemma dotted_by_cases (ext : string) :
  dotted ext = match ext with
               | String "." _ => ext
               | _ => ("." ++ ext)%string
               end.
Proof.
  unfold dotted. destruct ext as [|c r]; [done|].
  destruct c as [[] [] [] [] [] [] [] []]; done.
Qed.

(** C2, as the code has it.  For a key other than the wildcard,
    [register] prefixes a dot unless the key already starts with one (the
    empty key becomes [.]), and a successful call stores the engine under
    that key: the cache is the old cache with this one entry set. *)
Theorem register_key_is_dotted (ext : string) (args : list value) (s s' : state) :
  ext ≠ "*" →
  cache s < length (heap_of s) →
  register ext args s = Return tt s' →
  let key := match ext with
             | String "." _ => ext
             | _ => ("." ++ ext)%string
             end in
  cache s' = cache s ∧
  prop (heap_of s') (VRef (cache s')) key = engine_arg args ∧
  (engine_arg args ≠ VRef (cache s) →
   own_props (heap_of s') (VRef (cache s')) =
     <[key := engine_arg args]> (own_props (heap_of s) (VRef (cache s)))).
Proof.
  intros _ Hc Hrun. rewrite <- dotted_by_cases. simpl.
  destruct (register_returns_inv ext args s s' Hrun) as (l & Hfn & Hty & ->).
  change (cache (registered s ext args l)) with (cache s).
  rewrite Hfn. split; [done|]. split.
  - by apply registered_cache_entry.
  - intros Hne. apply registered_cache; [done|congruence].
Qed.

Lemma register_key_is_dotted_witness :
  "hbs" ≠ "*" ∧
  cache boot < length (heap_of boot) ∧
  ∃ s', register "hbs" [noop_module] boot = Return tt s' ∧
        prop (heap_of s') (VRef (cache s')) ".hbs" = noop_module.
Proof.
  split; [done|]. split; [vm_compute; lia|].
  eexists. split; [vm_compute; reflexivity|].
  eapply (register_key_is_dotted "hbs" [noop_module] boot);
    [done|vm_compute; lia|vm_compute; reflexivity].
Defined.

(** C2, counterexample.  The empty key is not kept as it is: the engine
    is stored under [.], and nothing is stored under the empty key. *)
Lemma register_empty_key_is_prefixed :
  ∃ s', register "" [noop_module] boot = Return tt s' ∧
        own_props (heap_of s') (VRef (cache s')) !! "" = None ∧
        own_props (heap_of s') (VRef (cache s')) !! "." = Some noop_module.
Proof. eexists. split; [vm_compute; reflexivity|]. split; reflexivity. Qed.

(** C3, as the code has it.  A function is accepted only if it carries a
    callable [render] property of its own.  For such a function and a
    non-empty extension, [register(ext, fn)] stores the function itself,
    [get(ext)] then returns it, and its [render] is still the property it
    came with.  A function without a callable [render] is rejected with
    the Invalid Engine error. *)
Theorem register_callable (ext : string) (l : loc) (s : state) :
  callable (deref (heap_of s) l) = true →
  ext ≠ "" →
  cache s < length (heap_of s) →
  if decide (typeof (heap_of s) (prop (heap_of s) (VRef l) "render") = TFunction)
  then ∃ s', register ext [VRef l] s = Return tt s' ∧
             get s' (VStr ext) = Some (VRef l) ∧
             typeof (heap_of s') (VRef l) = TFunction ∧
             prop (heap_of s') (VRef l) "render" = prop (heap_of s) (VRef l) "render" ∧
             typeof (heap_of s') (prop (heap_of s') (VRef l) "render") = TFunction
  else ∃ s', register ext [VRef l] s = Throw InvalidEngine s'.
Proof.
  intros Hcall Hext Hc. destruct (decide _) as [Hty|Hty].
  - exists (registered s ext [VRef l] l).
    split; [by apply register_success|].
    split; [|split; [|split]].
    + rewrite get_string by done.
      change (cache (registered s ext [VRef l] l)) with (cache s).
      by rewrite registered_cache_entry.
    + rewrite registered_typeof. simpl. by rewrite Hcall.
    + apply registered_render.
    + by rewrite registered_typeof, registered_render.
  - eexists. by apply register_failure.
Qed.

Lemma register_callable_witness :
  callable (deref (heap_of with_callable_engine) 14) = true ∧
  "hbs" ≠ "" ∧
  cache with_callable_engine < length (heap_of with_callable_engine) ∧
  ∃ s', register "hbs" [VRef 14] with_callable_engine = Return tt s' ∧
        get s' (VStr "hbs") = Some (VRef 14) ∧
        prop (heap_of s') (VRef 14) "render" = VRef 13.
Proof.
  split; [reflexivity|]. split; [done|]. split; [vm_compute; lia|].
  pose proof (register_callable "hbs" 14 with_callable_engine) as H.
  destruct (decide _) as [_|Hn] in H; [|exfalso; apply Hn; reflexivity].
  destruct H as (s' & Hrun & Hget & _ & Hrender & _);
    [reflexivity|done|vm_compute; lia|].
  exists s'. split; [done|]. split; [done|]. by rewrite Hrender.
Defined.

(** C3, counterexample.  A plain function (here the function at 13, which
    has no properties) is not treated as the [render] function: the call
    throws and [get("hbs")] does not find it. *)
Lemma register_plain_function_is_rejected :
  typeof (heap_of with_callable_engine) (VRef 13) = TFunction ∧
  ∃ s', register "hbs" [VRef 13] with_callable_engine = Throw InvalidEngine s' ∧
        get s' (VStr "hbs") = Some VUndefined.
Proof.
  split; [reflexivity|]. eexists. split; [vm_compute; reflexivity|reflexivity].
Qed.

(** ** Bulk registration *)

Section Load.
Implicit Types (h : heap) (l : loc) (v : value) (k : string) (s : state)
  (entries : list (string * value)).

Lemma owner_is_reference h v :
  is_Some (own_props h v !! "render") → ∃ l, v = VRef l.
Proof. destruct v; try (by intros [? [=]]). by eexists. Qed.

Lemma lookup_store_other h l k x v k' :
  k ≠ k' → own_props (store h l k x) v !! k' = own_props h v !! k'.
Proof.
  intros Hk. rewrite own_props_store.
  destruct (decide _); [by rewrite lookup_insert_ne|done].
Qed.

(** [register] writes [render], [renderFile] and [options] on the
    descriptor and a dotted key on the cache: a [hasOwnProperty] is
    neither made nor removed. *)
Lemma decorate_has_own_property h opts l v :
  own_props (decorate h opts l) v !! "hasOwnProperty" =
    own_props h v !! "hasOwnProperty".
Proof.
  unfold decorate. destruct (callable (deref h l)), (truthy _);
    by rewrite ?lookup_store_other, ?own_props_alloc, ?lookup_store_other by done.
Qed.

Lemma registered_has_own_property ext args l s v :
  own_props (heap_of (registered s ext args l)) v !! "hasOwnProperty" =
    own_props (heap_of s) v !! "hasOwnProperty".
Proof.
  simpl. destruct (dotted_shape ext) as [r Hr].
  rewrite lookup_store_other by (rewrite Hr; done).
  by rewrite decorate_has_own_property, entry_heap_own_props.
Qed.

Lemma loadable_registered s k l kv :
  is_Some (own_props (heap_of s) (VRef l) !! "render") →
  loadable s kv → loadable (registered s k [VRef l] l) kv.
Proof.
  intros Hown (Hn & Hh & Hkv). split; [done|].
  split; [by rewrite registered_has_own_property|]. unfold owns_render in *.
  rewrite registered_typeof, registered_render, registered_owns_render by done.
  done.
Qed.

(** The test of [load] on a value that has no [hasOwnProperty] of its
    own is the built-in one. *)
Lemma has_own_property_builtin v k s :
  nullish v = false →
  own_props (heap_of s) v !! "hasOwnProperty" = None →
  has_own_property v k s =
    Return (bool_decide (is_Some (own_props (heap_of s) v !! k))) s.
Proof. intros Hn Hh. unfold has_own_property. by rewrite Hn, Hh. Qed.

(** C5, as the code has it.  For a mapping none of whose values is
    [undefined] or [null] or has a [hasOwnProperty] of its own, and in
    which every value that owns [render] has a callable one (and is not
    the cache itself), [load] returns
    without error and its effect on the cache is that of setting, in
    the order of the enumeration, the dot-normalized key of exactly the
    entries whose value owns [render]; the other entries are skipped. *)
Theorem load_registers_render_owners entries : ∀ s,
  cache s < length (heap_of s) →
  Forall (loadable s) entries →
  ∃ s', load entries s = Return tt s' ∧
        cache s' = cache s ∧
        own_props (heap_of s') (VRef (cache s')) =
          foldl (λ m kv, <[dotted kv.1 := kv.2]> m)
                (own_props (heap_of s) (VRef (cache s)))
                (filter (owns_render (heap_of s)) entries).
Proof.
  induction entries as [|[k v] rest IH]; intros s Hc Hall.
  - by exists s.
  - apply Forall_cons in Hall as [(Hn & Hh & Hkv) Hrest]. simpl in Hn, Hh, Hkv.
    cbn [load]. rewrite bind_eq, has_own_property_builtin by done.
    rewrite filter_cons.
    destruct (decide (owns_render (heap_of s) (k, v))) as [Hown|Hown].
    + rewrite bool_decide_eq_true_2 by exact Hown.
      destruct (Hkv Hown) as [Hty Hne].
      destruct (owner_is_reference _ _ Hown) as [l Hl]. simpl in Hl. subst v.
      unfold bind at 1.
      rewrite (register_success k [VRef l] l s eq_refl Hty).
      destruct (IH (registered s k [VRef l] l)) as (s' & Hrun & Hcache & Hprops).
      { pose proof (registered_length k [VRef l] l s). simpl in *. lia. }
      { eapply Forall_impl; [exact Hrest|]. intros kv. by apply loadable_registered. }
      change (cache (registered s k [VRef l] l)) with (cache s) in Hcache, Hprops.
      rewrite registered_cache in Hprops by congruence.
      exists s'. split; [done|]. split; [done|].
      rewrite Hprops. cbn [foldl fst snd].
      f_equal. apply list_filter_iff. intros kv. unfold owns_render.
      by rewrite registered_owns_render.
    + rewrite bool_decide_eq_false_2 by exact Hown.
      unfold bind at 1, ret.
      destruct (IH s Hc Hrest) as (s' & Hrun & Hcache & Hprops).
      by exists s'.
Qed.
End Load.

Lemma load_registers_render_owners_witness :
  cache with_engines < length (heap_of with_engines) ∧
  Forall (loadable with_engines) [("hbs", VRef 14); ("txt", VRef 15)] ∧
  ∃ s', load [("hbs", VRef 14); ("txt", VRef 15)] with_engines = Return tt s' ∧
        own_props (heap_of s') (VRef (cache s')) =
          <[".hbs" := VRef 14]>
            (own_props (heap_of with_engines) (VRef (cache with_engines))).
Proof.
  assert (Hc : cache with_engines < length (heap_of with_engines))
    by (vm_compute; lia).
  assert (Hall : Forall (loadable with_engines) [("hbs", VRef 14); ("txt", VRef 15)]).
  { apply Forall_cons. split; [|apply Forall_cons; split; [|by apply Forall_nil]].
    - split; [reflexivity|]. split; [reflexivity|]. intros _.
      split; [vm_compute; reflexivity|vm_compute; congruence].
    - split; [reflexivity|]. split; [reflexivity|].
      intros [x Hx]. exfalso. vm_compute in Hx. discriminate. }
  split; [exact Hc|]. split; [exact Hall|].
  destruct (load_registers_render_owners _ with_engines Hc Hall)
    as (s' & Hrun & _ & Hprops).
  exists s'. split; [exact Hrun|]. rewrite Hprops. vm_compute. reflexivity.
Defined.

(** C5, counterexample.  The value of [a] owns a [render] property, but
    one that is not callable: [load] throws the Invalid Engine error and
    the entry is not registered. *)
Lemma load_uncallable_render_throws :
  owns_render (heap_of with_engines) ("a", VRef 16) ∧
  ∃ s', load [("a", VRef 16)] with_engines = Throw InvalidEngine s' ∧
        own_props (heap_of s') (VRef (cache s')) !! ".a" = None.
Proof.
  split; [eexists; vm_compute; reflexivity|].
  eexists. split; [vm_compute; reflexivity|vm_compute; reflexivity].
Qed.

(** ** Initialization *)

Section Init.
Implicit Types (h : heap) (l : loc) (v opts : value) (k : string) (s : state).

Lemma registered_other ext args l s v :
  v ≠ VRef l → v ≠ VRef (cache s) →
  own_props (heap_of (registered s ext args l)) v = own_props (heap_of s) v.
Proof.
  intros Hl Hc. simpl. rewrite own_props_store_ne by done.
  rewrite decorate_own_props_ne by done. apply entry_heap_own_props.
Qed.

Lemma bundled_registered ext args l s m :
  bundled s m → bundled (registered s ext args l) m.
Proof.
  intros [(lm & -> & Hlm) Hty]. split.
  - exists lm. split; [done|]. pose proof (registered_length ext args l s). lia.
  - by rewrite registered_typeof, registered_render.
Qed.

(** [init] replaces the two stores by new, empty objects before it
    merges [opts] and registers the bundled engines. *)
Lemma init_unfold lm nm opts s :
  init lm nm opts s = (extend opts;; defaultEngines lm nm) (emptied s).
Proof. done. Qed.

(** What [init] leaves behind, once [extend(opts)] has returned. *)
Lemma init_after_extend lm nm opts s s3 :
  bundled s lm → bundled s nm →
  extend opts (emptied s) = Return tt s3 →
  ∃ s', init lm nm opts s = Return tt s' ∧
        option_entries s' = option_entries s3 ∧
        cache_entries s' = <[".*" := nm]> (<[".tmpl" := lm]> ∅) ∧
        options s' ≠ cache s' ∧
        cache s' < length (heap_of s') ∧
        bundled s' lm ∧ bundled s' nm.
Proof.
  intros Hlm Hnm Hrun3. rewrite init_unfold, bind_eq, Hrun3.
  destruct (extend_frame _ _ _ Hrun3) as (Ho3 & Hc3' & Hlen3 & _ & Hframe3).
  destruct s as [h o c]. destruct s3 as [h3 o3 c3].
  unfold emptied in *. cbn [heap_of options cache] in *. subst o3 c3.
  set (h2 := (h ++ [plain]) ++ [plain]) in *.
  assert (Hlen1 : length (h ++ [plain]) = S (length h))
    by (rewrite length_app; simpl; lia).
  assert (Hlen2 : length h2 = S (S (length h)))
    by (unfold h2; rewrite !length_app; simpl; lia).
  rewrite Hlen1.
  set (s3 := State h3 (length h2) (S (length h))).
  assert (Hb3 : ∀ m, bundled (State h o c) m → bundled s3 m).
  { intros m [(l & -> & Hl) Hty]. simpl in *. split.
    - exists l. simpl. split; [done|lia].
    - simpl. unfold prop, own_props in *.
      rewrite Hframe3 by lia. unfold h2. rewrite !deref_alloc.
      destruct (default VUndefined _) as [| | | | | |r]; try done.
      simpl in *. destruct (decide (r = length h2)) as [->|Hr].
      + rewrite deref_fresh in Hty by lia. done.
      + rewrite Hframe3 by done. unfold h2. by rewrite !deref_alloc. }
  destruct (Hb3 lm Hlm) as [(ll & -> & Hll) Htl].
  unfold defaultEngines. rewrite bind_eq.
  rewrite (register_success "tmpl" [VRef ll] ll s3 eq_refl Htl).
  set (s4 := registered s3 "tmpl" [VRef ll] ll).
  pose proof (bundled_registered "tmpl" [VRef ll] ll s3 _ (Hb3 nm Hnm)) as Hn4.
  pose proof (bundled_registered "tmpl" [VRef ll] ll s3 _ (Hb3 _ Hlm)) as Hl4.
  fold s4 in Hn4, Hl4.
  destruct Hn4 as [(ln & -> & Hln) Htn].
  rewrite (register_success "*" [VRef ln] ln s4 eq_refl Htn).
  set (s5 := registered s4 "*" [VRef ln] ln).
  assert (Hll3 : ll < length h).
  { destruct Hlm as [(l' & [= <-] & ?) _]. done. }
  assert (Hln3 : ln < length h).
  { destruct Hnm as [(l' & [= <-] & ?) _]. done. }
  assert (Hc3 : cache s3 < length (heap_of s3)) by (simpl; lia).
  assert (Hc4 : cache s4 < length (heap_of s4)).
  { pose proof (registered_length "tmpl" [VRef ll] ll s3).
    change (cache s4) with (cache s3). fold s4 in H. lia. }
  exists s5. split; [done|]. split; [|split; [|split; [|split; [|split]]]].
  - change (options s5) with (length h2).
    unfold s5. rewrite registered_other; [|intros [=]; lia|simpl; intros [=]; lia].
    unfold s4. rewrite registered_other; [|intros [=]; lia|simpl; intros [=]; lia].
    done.
  - change (cache s5) with (cache s4). unfold s5.
    rewrite registered_cache; [|done|simpl; lia].
    change (cache s4) with (cache s3). unfold s4.
    rewrite registered_cache; [|done|simpl; lia].
    simpl. unfold own_props at 1. rewrite Hframe3 by lia.
    unfold h2. rewrite !deref_alloc, deref_fresh by lia. done.
  - simpl. lia.
  - change (cache s5) with (cache s4).
    pose proof (registered_length "*" [VRef ln] ln s4). fold s5 in H. lia.
  - by apply bundled_registered.
  - apply bundled_registered. split; [by eexists|done].
Qed.

(** The cache in every state in which [init] returns. *)
Lemma init_returned lm nm opts s s' :
  bundled s lm → bundled s nm →
  init lm nm opts s = Return tt s' →
  cache_entries s' = <[".*" := nm]> (<[".tmpl" := lm]> ∅) ∧
  options s' ≠ cache s' ∧
  cache s' < length (heap_of s').
Proof.
  intros Hlm Hnm Hrun.
  destruct (extend opts (emptied s)) as [[] s3| |] eqn:Hrun3.
  - destruct (init_after_extend lm nm opts s s3 Hlm Hnm Hrun3)
      as (s0 & Hrun0 & _ & Hcache & Hne & Hlt & _).
    rewrite Hrun in Hrun0. injection Hrun0 as ->. done.
  - by rewrite init_unfold, bind_eq, Hrun3 in Hrun.
  - by rewrite init_unfold, bind_eq, Hrun3 in Hrun.
Qed.

(** [init] with a plain mapping. *)
Lemma init_plain lm nm opts s :
  bundled s lm → bundled s nm →
  plain_mapping (heap_of s) opts →
  ∃ s', init lm nm opts s = Return tt s' ∧
        option_entries s' = own_props (heap_of s) opts ∧
        cache_entries s' = <[".*" := nm]> (<[".tmpl" := lm]> ∅) ∧
        options s' ≠ cache s' ∧
        cache s' < length (heap_of s') ∧
        bundled s' lm ∧ bundled s' nm.
Proof.
  intros Hlm Hnm (Hty & Hp & Hs).
  assert (Hnew : option_entries (emptied s) = ∅).
  { unfold emptied. cbn [heap_of options]. rewrite own_props_alloc.
    apply own_props_new. }
  destruct (extend_plain opts (emptied s)) as (s3 & Hrun3 & He3).
  { unfold emptied. cbn [heap_of].
    repeat split; [by rewrite !typeof_alloc|by rewrite !own_props_alloc|done]. }
  { by rewrite Hnew. }
  destruct (init_after_extend lm nm opts s s3 Hlm Hnm Hrun3)
    as (s' & Hrun & He & Hrest).
  exists s'. split; [exact Hrun|]. split; [|exact Hrest].
  rewrite He, He3, Hnew. unfold emptied. cbn [heap_of].
  rewrite !own_props_alloc. apply (right_id_L ∅ (∪)).
Qed.
End Init.

(** C9, on the code.  [init] discards the previous stores.  For [opts]
    that is a plain mapping (no function, no key [__proto__] of its own),
    the options store afterwards holds exactly the entries of [opts], and
    the cache holds exactly two entries, the bundled descriptors.  They
    are keyed [.tmpl] and [.*]: [register] has put its dot in front of the
    wildcard, and there is no entry keyed [*].  A second [init] with the
    same input gives the same two stores. *)
Theorem init_resets_both_stores (lm nm opts : value) (s : state) :
  bundled s lm → bundled s nm →
  plain_mapping (heap_of s) opts →
  ∃ s', init lm nm opts s = Return tt s' ∧
        option_entries s' = own_props (heap_of s) opts ∧
        cache_entries s' = {[ ".tmpl" := lm; ".*" := nm ]} ∧
        cache_entries s' !! "*" = None ∧
        ∀ opts', plain_mapping (heap_of s') opts' →
                 own_props (heap_of s') opts' = own_props (heap_of s) opts →
                 ∃ s'', init lm nm opts' s' = Return tt s'' ∧
                        option_entries s'' = option_entries s' ∧
                        cache_entries s'' = cache_entries s'.
Proof.
  intros Hlm Hnm Hopts.
  destruct (init_plain lm nm opts s Hlm Hnm Hopts)
    as (s' & Hrun & Hopt & Hcache & _ & _ & Hlm' & Hnm').
  assert (Hmap : <[".*" := nm]> (<[".tmpl" := lm]> (∅ : gmap string value))
                 = {[ ".tmpl" := lm; ".*" := nm ]}).
  { by rewrite insert_insert_ne by done. }
  exists s'. split; [done|]. split; [done|]. rewrite <- Hmap.
  split; [done|]. split.
  - rewrite Hcache. by rewrite !lookup_insert_ne by done.
  - intros opts' Hplain Hsame.
    destruct (init_plain lm nm opts' s' Hlm' Hnm' Hplain)
      as (s'' & Hrun' & Hopt' & Hcache' & _).
    exists s''. split; [done|]. by rewrite Hopt', Hcache', Hopt, Hcache, Hsame.
Qed.

Lemma init_resets_both_stores_witness :
  bundled with_options lodash_module ∧ bundled with_options noop_module ∧
  plain_mapping (heap_of with_options) (VRef 6) ∧
  ∃ s', init lodash_module noop_module (VRef 6) with_options = Return tt s' ∧
        option_entries s' = {[ "a" := VNum 1 ]} ∧
        cache_entries s' = {[ ".tmpl" := lodash_module; ".*" := noop_module ]} ∧
        cache_entries s' !! "*" = None.
Proof.
  assert (Hl : bundled with_options lodash_module).
  { split; [exists 1; split; [done|vm_compute; lia]|reflexivity]. }
  assert (Hn : bundled with_options noop_module).
  { split; [exists 3; split; [done|vm_compute; lia]|reflexivity]. }
  assert (Hp : plain_mapping (heap_of with_options) (VRef 6)) by done.
  split; [exact Hl|]. split; [exact Hn|]. split; [exact Hp|].
  destruct (init_resets_both_stores lodash_module noop_module (VRef 6) with_options
              Hl Hn Hp)
    as (s' & Hrun & Hopts & Hcache & Hstar & _).
  exists s'. split; [exact Hrun|]. split; [|split; [exact Hcache|exact Hstar]].
  rewrite Hopts. by vm_compute.
Defined.

(** C1, on the code.  After [init] the wildcard descriptor is in the
    cache, but under [.*]; the fallback of [get] reads [*].  So for every
    non-empty extension without an exact match [get] returns [undefined],
    not the wildcard descriptor. *)
Theorem get_after_init_misses_wildcard (lm nm opts : value) (s s' : state) (e : string) :
  bundled s lm → bundled s nm →
  init lm nm opts s = Return tt s' →
  e ≠ "" →
  cache_entries s' !! dotted e = None →
  get s' (VStr e) = Some VUndefined ∧ cache_entries s' !! ".*" = Some nm.
Proof.
  intros Hlm Hnm Hrun He Hmiss.
  destruct (init_returned lm nm opts s s' Hlm Hnm Hrun) as (Hcache & _).
  split.
  - rewrite get_string by done. unfold prop. rewrite Hmiss. simpl.
    rewrite Hcache. by rewrite !lookup_insert_ne by done.
  - rewrite Hcache. by rewrite lookup_insert_eq.
Qed.

Lemma get_after_init_misses_wildcard_witness :
  bundled boot lodash_module ∧ bundled boot noop_module ∧
  init lodash_module noop_module VUndefined boot = Return tt initialized ∧
  "unknownext" ≠ "" ∧
  cache_entries initialized !! dotted "unknownext" = None ∧
  get initialized (VStr "unknownext") = Some VUndefined ∧
  cache_entries initialized !! ".*" = Some noop_module.
Proof.
  assert (Hl : bundled boot lodash_module).
  { split; [exists 1; split; [done|vm_compute; lia]|reflexivity]. }
  assert (Hn : bundled boot noop_module).
  { split; [exists 3; split; [done|vm_compute; lia]|reflexivity]. }
  assert (Hrun : init lodash_module noop_module VUndefined boot = Return tt initialized)
    by (vm_compute; reflexivity).
  split; [exact Hl|]. split; [exact Hn|]. split; [exact Hrun|].
  split; [done|]. split; [reflexivity|].
  apply (get_after_init_misses_wildcard lodash_module noop_module VUndefined boot);
    [exact Hl|exact Hn|exact Hrun|done|reflexivity].
Defined.

(** * Further properties of the registry *)

(** ** What a successful [register] leaves in the heap *)

Section Registered.
Implicit Types (h : heap) (l : loc) (v opts : value) (k ext : string)
  (args : list value) (s : state).

Lemma callable_render_exists h l :
  typeof h (prop h (VRef l) "render") = TFunction → l < length h.
Proof.
  intros Hty. destruct (decide (l < length h)) as [|Hge]; [done|].
  unfold prop, own_props in Hty. rewrite deref_fresh in Hty by lia. done.
Qed.

Lemma decorate_options h opts l :
  l < length h →
  prop (decorate h opts l) (VRef l) "options" =
    js_or (js_or (prop h (VRef l) "options") opts) (VRef (length h)).
Proof.
  intros Hl. unfold decorate.
  set (h2 := if callable (deref h l) then _ else _).
  assert (Hlen : length h2 = length h)
    by (unfold h2; destruct (callable _); apply length_store).
  assert (Hfo : prop h2 (VRef l) "options" = prop h (VRef l) "options")
    by (unfold h2; destruct (callable _); by rewrite prop_store_other).
  rewrite Hfo, Hlen.
  set (x := js_or (prop h (VRef l) "options") opts).
  destruct (truthy x) eqn:Ht.
  - replace (js_or x (VRef (length h))) with x by (unfold js_or; by rewrite Ht).
    apply prop_store_hit. lia.
  - replace (js_or x (VRef (length h))) with (VRef (length h))
      by (unfold js_or; by rewrite Ht).
    apply prop_store_hit. rewrite length_app. lia.
Qed.

Lemma decorate_fresh_options h opts l :
  l < length h →
  truthy (js_or (prop h (VRef l) "options") opts) = false →
  own_props (decorate h opts l) (VRef (length h)) = ∅.
Proof.
  intros Hl Hf. unfold decorate.
  set (h2 := if callable (deref h l) then _ else _).
  assert (Hlen : length h2 = length h)
    by (unfold h2; destruct (callable _); apply length_store).
  assert (Hfo : prop h2 (VRef l) "options" = prop h (VRef l) "options")
    by (unfold h2; destruct (callable _); by rewrite prop_store_other).
  rewrite Hfo, Hf, Hlen.
  rewrite own_props_store_ne by (intros [=]; lia).
  rewrite <- Hlen. apply own_props_new.
Qed.

Lemma decorate_render_file h opts l :
  l < length h →
  prop (decorate h opts l) (VRef l) "renderFile" =
    if callable (deref h l) then prop h (VRef l) "renderFile"
    else js_or (prop h (VRef l) "renderFile") (prop h (VRef l) "__express").
Proof.
  intros Hl. unfold decorate. destruct (callable (deref h l)), (truthy _);
    rewrite ?(prop_store_other _ _ "options"), ?prop_alloc by done.
  1,2: by rewrite prop_store_other.
  1,2: by rewrite prop_store_hit.
Qed.

Lemma dotted_not_options ext : dotted ext ≠ "options".
Proof. destruct (dotted_shape ext) as [r ->]. done. Qed.

Lemma dotted_not_render_file ext : dotted ext ≠ "renderFile".
Proof. destruct (dotted_shape ext) as [r ->]. done. Qed.
End Registered.

(** ** Registering, beyond the claims *)

Lemma js_or_reference_truthy (x : value) (l : loc) : truthy (js_or x (VRef l)) = true.
Proof. unfold js_or. by destruct (truthy x) eqn:E. Qed.

Lemma truthy_prop_is_own (h : heap) (v : value) (k : string) :
  truthy (prop h v k) = true → is_Some (own_props h v !! k).
Proof. unfold prop. by destruct (own_props h v !! k). Qed.

(** X1.  Registration followed by lookup.  For an object or a function
    whose [render] is callable, in the two-argument and in the
    three-argument form, [register] returns; [get] of the same non-empty
    extension then hands back that very object, and the entry is visible
    through the mapping that [get()] returned before the call. *)
Theorem register_then_get (ext : string) (args : list value) (l : loc) (s : state) :
  engine_arg args = VRef l →
  typeof (heap_of s) (prop (heap_of s) (VRef l) "render") = TFunction →
  ext ≠ "" →
  cache s < length (heap_of s) →
  ∃ s', register ext args s = Return tt s' ∧
        get s' (VStr ext) = Some (VRef l) ∧
        get s' VUndefined = get s VUndefined ∧
        prop (heap_of s') (VRef (cache s)) (dotted ext) = VRef l.
Proof.
  intros Hfn Hty Hext Hc. exists (registered s ext args l).
  split; [by apply register_success|].
  pose proof (registered_cache_entry ext args l s Hc) as Hentry.
  split; [|split; [done|exact Hentry]].
  rewrite get_string by done.
  change (cache (registered s ext args l)) with (cache s).
  by rewrite Hentry.
Qed.

Lemma register_then_get_witness :
  engine_arg [VRef 15; VRef 14] = VRef 14 ∧
  typeof (heap_of with_engines) (prop (heap_of with_engines) (VRef 14) "render") = TFunction ∧
  "hbs" ≠ "" ∧
  cache with_engines < length (heap_of with_engines) ∧
  ∃ s', register "hbs" [VRef 15; VRef 14] with_engines = Return tt s' ∧
        get s' (VStr "hbs") = Some (VRef 14).
Proof.
  split; [reflexivity|]. split; [vm_compute; reflexivity|]. split; [done|].
  split; [vm_compute; lia|].
  destruct (register_then_get "hbs" [VRef 15; VRef 14] 14 with_engines)
    as (s' & Hrun & Hget & _);
    [reflexivity|vm_compute; reflexivity|done|vm_compute; lia|].
  exists s'. by split.
Defined.

(** X2.  A successful [register] writes one key of the cache.  Every
    other entry is as before, the [*] entry that [get] falls back to
    included (the key written always starts with a dot), and [get] of an
    extension with another normalized key returns what it returned
    before. *)
Theorem register_changes_one_key (ext : string) (args : list value) (s s' : state) :
  register ext args s = Return tt s' →
  cache s < length (heap_of s) →
  engine_arg args ≠ VRef (cache s) →
  (∀ k, k ≠ dotted ext → cache_entries s' !! k = cache_entries s !! k) ∧
  cache_entries s' !! "*" = cache_entries s !! "*" ∧
  (∀ e, e ≠ "" → dotted e ≠ dotted ext → get s' (VStr e) = get s (VStr e)).
Proof.
  intros Hrun Hc Hne.
  destruct (register_returns_inv ext args s s' Hrun) as (l & Hfn & Hty & ->).
  change (cache (registered s ext args l)) with (cache s).
  assert (Hother : ∀ k, k ≠ dotted ext →
            cache_entries (registered s ext args l) !! k = cache_entries s !! k).
  { intros k Hk. change (cache (registered s ext args l)) with (cache s).
    rewrite registered_cache by congruence. by rewrite lookup_insert_ne. }
  change (cache (registered s ext args l)) with (cache s) in Hother.
  split; [exact Hother|]. split.
  - apply Hother. symmetry. apply dotted_not_star.
  - intros e He Hk. rewrite !get_string by done. unfold prop.
    change (cache (registered s ext args l)) with (cache s).
    rewrite (Hother (dotted e) Hk), (Hother "*"); [done|].
    symmetry. apply dotted_not_star.
Qed.

Lemma register_changes_one_key_witness :
  register "hbs" [VRef 14] with_engines =
    Return tt (registered with_engines "hbs" [VRef 14] 14) ∧
  cache with_engines < length (heap_of with_engines) ∧
  engine_arg [VRef 14] ≠ VRef (cache with_engines) ∧
  get (registered with_engines "hbs" [VRef 14] 14) (VStr "tmpl") = Some lodash_module.
Proof.
  assert (Hrun : register "hbs" [VRef 14] with_engines =
                 Return tt (registered with_engines "hbs" [VRef 14] 14))
    by (vm_compute; reflexivity).
  assert (Hc : cache with_engines < length (heap_of with_engines)) by (vm_compute; lia).
  assert (Hne : engine_arg [VRef 14] ≠ VRef (cache with_engines))
    by (vm_compute; congruence).
  split; [exact Hrun|]. split; [exact Hc|]. split; [exact Hne|].
  destruct (register_changes_one_key "hbs" [VRef 14] with_engines _ Hrun Hc Hne)
    as (_ & _ & Hget).
  rewrite (Hget "tmpl"); [vm_compute; reflexivity|done|done].
Defined.

(** X3.  Registering again under the same normalized key replaces the
    entry: the cache after both calls has the entries it would have after
    the second call alone. *)
Theorem register_again_replaces (ext1 ext2 : string) (args1 args2 : list value)
    (l1 l2 : loc) (s : state) :
  engine_arg args1 = VRef l1 → engine_arg args2 = VRef l2 →
  typeof (heap_of s) (prop (heap_of s) (VRef l1) "render") = TFunction →
  typeof (heap_of s) (prop (heap_of s) (VRef l2) "render") = TFunction →
  dotted ext1 = dotted ext2 →
  cache s < length (heap_of s) → l1 ≠ cache s → l2 ≠ cache s →
  ∃ s1 s2 s2', register ext1 args1 s = Return tt s1 ∧
               register ext2 args2 s1 = Return tt s2 ∧
               register ext2 args2 s = Return tt s2' ∧
               cache_entries s2 = cache_entries s2' ∧
               prop (heap_of s2) (VRef (cache s2)) (dotted ext1) = VRef l2.
Proof.
  intros Hfn1 Hfn2 Hty1 Hty2 Hk Hc Hl1 Hl2.
  set (s1 := registered s ext1 args1 l1).
  assert (Hty2' : typeof (heap_of s1) (prop (heap_of s1) (VRef l2) "render") = TFunction)
    by (unfold s1; by rewrite registered_typeof, registered_render).
  assert (Hc1 : cache s1 < length (heap_of s1)).
  { pose proof (registered_length ext1 args1 l1 s). fold s1 in H.
    change (cache s1) with (cache s). lia. }
  exists s1, (registered s1 ext2 args2 l2), (registered s ext2 args2 l2).
  split; [by apply register_success|].
  split; [by apply register_success|].
  split; [by apply register_success|].
  change (cache (registered s1 ext2 args2 l2)) with (cache s1).
  change (cache (registered s ext2 args2 l2)) with (cache s).
  split.
  - rewrite registered_cache by done.
    change (cache s1) with (cache s). unfold s1.
    rewrite !registered_cache by done.
    rewrite Hk. apply insert_insert_eq.
  - rewrite Hk. by apply registered_cache_entry.
Qed.

Lemma register_again_replaces_witness :
  ∃ s1 s2, register "hbs" [VRef 14] with_callable_engine = Return tt s1 ∧
           register ".hbs" [noop_module] s1 = Return tt s2 ∧
           get s2 (VStr "hbs") = Some noop_module.
Proof.
  destruct (register_again_replaces "hbs" ".hbs" [VRef 14] [noop_module] 14 3
              with_callable_engine)
    as (s1 & s2 & _ & Hrun1 & Hrun2 & _ & _ & Hentry);
    [reflexivity|reflexivity|vm_compute; reflexivity|vm_compute; reflexivity
    |reflexivity|vm_compute; lia|vm_compute; lia|vm_compute; lia|].
  exists s1, s2. split; [exact Hrun1|]. split; [exact Hrun2|].
  rewrite get_string by done.
  replace (cache s2) with (cache with_callable_engine) in Hentry |- *.
  - by rewrite Hentry.
  - destruct (register_returns_inv _ _ _ _ Hrun2) as (? & _ & _ & ->).
    destruct (register_returns_inv _ _ _ _ Hrun1) as (? & _ & _ & ->). done.
Defined.

(** X4.  The [options] a registered descriptor ends up with
    ([engine.options = fn.options || options || {}]): its own [options]
    when these are truthy; otherwise the options argument of the
    three-argument form when that is truthy, the same object and not a
    copy; otherwise a new object without entries. *)
Theorem register_attaches_options (ext : string) (args : list value) (l : loc) (s : state) :
  engine_arg args = VRef l →
  typeof (heap_of s) (prop (heap_of s) (VRef l) "render") = TFunction →
  cache s < length (heap_of s) →
  ∃ s', register ext args s = Return tt s' ∧
        let own := prop (heap_of s) (VRef l) "options" in
        let given := match args with [_] => VUndefined | _ => nth 0 args VUndefined end in
        let fresh := VRef (S (length (heap_of s))) in
        prop (heap_of s') (VRef l) "options" =
          (if truthy own then own else if truthy given then given else fresh) ∧
        (truthy own = false → truthy given = false →
         own_props (heap_of s') fresh = ∅).
Proof.
  intros Hfn Hty Hc. exists (registered s ext args l).
  split; [by apply register_success|]. cbv zeta.
  pose proof (callable_render_exists _ _ Hty) as Hl.
  pose proof (entry_heap_length (heap_of s) args) as Hlen.
  cbn [registered heap_of].
  rewrite prop_store_other by (symmetry; apply dotted_not_options).
  rewrite decorate_options by lia. rewrite entry_heap_prop.
  set (own := prop (heap_of s) (VRef l) "options").
  destruct args as [|a [|b rest]]; cbn [engine_arg nth options_arg entry_heap] in *.
  - done.
  - subst a. split.
    + unfold js_or. destruct (truthy own) eqn:Ho; simpl; [by rewrite Ho|done].
    + intros Ho _. rewrite own_props_store_ne by (intros [=]; lia).
      rewrite decorate_own_props_ne by (intros [=]; lia).
      replace (S (length (heap_of s))) with (length (heap_of s ++ [plain]))
        by (rewrite length_app; simpl; lia).
      apply own_props_new.
  - replace (length (heap_of s ++ [plain])) with (S (length (heap_of s)))
      by (rewrite length_app; simpl; lia).
    split.
    + unfold js_or. destruct (truthy own) eqn:Ho; simpl; [by rewrite Ho|].
      done.
    + intros Ho Ha. rewrite own_props_store_ne by (intros [=]; lia).
      replace (S (length (heap_of s))) with (length (heap_of s ++ [plain]))
        by (rewrite length_app; simpl; lia).
      apply decorate_fresh_options; [rewrite length_app; simpl; lia|].
      rewrite prop_alloc. fold own. unfold js_or. by rewrite Ho.
Qed.

Lemma register_attaches_options_witness :
  ∃ s', register "hbs" [VRef 15; VRef 14] with_engines = Return tt s' ∧
        prop (heap_of s') (VRef 14) "options" = VRef 15.
Proof.
  destruct (register_attaches_options "hbs" [VRef 15; VRef 14] 14 with_engines)
    as (s' & Hrun & Hopts & _);
    [reflexivity|vm_compute; reflexivity|vm_compute; lia|].
  exists s'. split; [exact Hrun|]. rewrite Hopts. vm_compute. reflexivity.
Defined.

(** X5.  The Express fallback ([engine.renderFile = fn.renderFile ||
    fn.__express]) is applied to an object descriptor only: after
    [register], the [renderFile] of an object is its own when truthy and
    its [__express] otherwise, while a function keeps the [renderFile] it
    had, whatever its [__express]. *)
Theorem register_render_file (ext : string) (args : list value) (l : loc) (s : state) :
  engine_arg args = VRef l →
  typeof (heap_of s) (prop (heap_of s) (VRef l) "render") = TFunction →
  ∃ s', register ext args s = Return tt s' ∧
        prop (heap_of s') (VRef l) "renderFile" =
          if callable (deref (heap_of s) l)
          then prop (heap_of s) (VRef l) "renderFile"
          else js_or (prop (heap_of s) (VRef l) "renderFile")
                     (prop (heap_of s) (VRef l) "__express").
Proof.
  intros Hfn Hty. exists (registered s ext args l).
  split; [by apply register_success|].
  pose proof (callable_render_exists _ _ Hty) as Hl.
  pose proof (entry_heap_length (heap_of s) args) as Hlen.
  cbn [registered heap_of].
  rewrite prop_store_other by (symmetry; apply dotted_not_render_file).
  rewrite decorate_render_file by lia.
  by rewrite entry_heap_deref, !entry_heap_prop.
Qed.

(** An Express-style engine: the object at 14 has [render] and
    [__express], both the function at 13. *)
Lemma register_render_file_witness :
  ∃ s', register "ejs" [VRef 14] with_express_engine = Return tt s' ∧
        prop (heap_of s') (VRef 14) "renderFile" = VRef 13.
Proof.
  destruct (register_render_file "ejs" [VRef 14] 14 with_express_engine)
    as (s' & Hrun & Hfile); [reflexivity|vm_compute; reflexivity|].
  exists s'. split; [exact Hrun|]. rewrite Hfile. vm_compute. reflexivity.
Defined.

(** X6.  A rejected engine object is not left as it was.  When
    [register] throws the Invalid Engine error for an object or function,
    that object has already received its [options]; nothing else that
    existed before the call has been written. *)
Theorem rejected_engine_is_decorated (ext : string) (args : list value) (l : loc) (s : state) :
  engine_arg args = VRef l →
  l < length (heap_of s) →
  typeof (heap_of s) (prop (heap_of s) (VRef l) "render") ≠ TFunction →
  ∃ s', register ext args s = Throw InvalidEngine s' ∧
        is_Some (own_props (heap_of s') (VRef l) !! "options") ∧
        truthy (prop (heap_of s') (VRef l) "options") = true ∧
        ∀ l', l' ≠ l → deref (heap_of s') l' = deref (heap_of s) l'.
Proof.
  intros Hfn Hl Hty. exists (rejected s args l).
  split; [by apply register_failure|].
  pose proof (entry_heap_length (heap_of s) args) as Hlen.
  assert (Ht : truthy (prop (heap_of (rejected s args l)) (VRef l) "options") = true).
  { cbn [rejected heap_of]. rewrite decorate_options by lia.
    apply js_or_reference_truthy. }
  split; [by apply truthy_prop_is_own|]. split; [exact Ht|].
  intros l' Hne. cbn [rejected heap_of].
  by rewrite decorate_frame, entry_heap_deref.
Qed.

Lemma rejected_engine_is_decorated_witness :
  own_props (heap_of with_engines) (VRef 15) = ∅ ∧
  ∃ s', register "txt" [VRef 15] with_engines = Throw InvalidEngine s' ∧
        is_Some (own_props (heap_of s') (VRef 15) !! "options").
Proof.
  split; [reflexivity|].
  destruct (rejected_engine_is_decorated "txt" [VRef 15] 15 with_engines)
    as (s' & Hrun & Hown & _);
    [reflexivity|vm_compute; lia|vm_compute; congruence|].
  exists s'. by split.
Defined.

(** X7.  An engine argument that is no object.  [undefined] and [null]
    make [register] throw a TypeError, any other primitive the Invalid
    Engine error; in both cases the two stores and every object that
    existed before the call are untouched. *)
Theorem register_without_object (ext : string) (args : list value) (s : state) :
  (∀ l, engine_arg args ≠ VRef l) →
  ∃ s', register ext args s =
          Throw (if nullish (engine_arg args) then TypeError else InvalidEngine) s' ∧
        options s' = options s ∧ cache s' = cache s ∧
        ∀ l, l < length (heap_of s) → deref (heap_of s') l = deref (heap_of s) l.
Proof.
  intros Hr. destruct (nullish (engine_arg args)) eqn:Hn.
  - rewrite register_nullish by done. eexists. split; [done|].
    split; [done|]. split; [done|]. intros l _. apply entry_heap_deref.
  - destruct (register_primitive ext args s Hn Hr) as (h' & Hrun & Hframe).
    eexists. split; [exact Hrun|]. split; [done|]. split; [done|].
    intros l Hl. apply Hframe. lia.
Qed.

Lemma register_without_object_witness :
  ∃ s', register "x" [] initialized = Throw TypeError s' ∧
        cache_entries s' = cache_entries initialized.
Proof.
  destruct (register_without_object "x" [] initialized) as (s' & Hrun & _ & Hc & Hframe);
    [done|].
  exists s'. split; [exact Hrun|]. rewrite Hc. unfold own_props.
  rewrite Hframe; [done|vm_compute; lia].
Defined.

(** ** Clearing and looking up, beyond the claims *)

Lemma cleared_entries (s : state) (k : string) :
  own_props (remove (heap_of s) (cache s) k) (VRef (cache s)) =
    delete k (cache_entries s).
Proof.
  rewrite own_props_remove. destruct (decide _) as [|Hn]; [done|].
  rewrite own_props_dangling; [by rewrite delete_empty|].
  destruct (decide (cache s < length (heap_of s))); [|lia]. naive_solver.
Qed.

(** X8.  After [clear(e)] for a non-empty [e], [get(e)] no longer finds
    an entry of its own: it returns whatever the [*] entry holds
    ([undefined] when there is none).  Extensions with another normalized
    key are looked up as before, and [get()] is still the same mapping. *)
Theorem clear_then_get (s : state) (e : string) :
  e ≠ "" →
  ∃ s', clear s (VStr e) = Some s' ∧
        get s' (VStr e) = Some (prop (heap_of s) (VRef (cache s)) "*") ∧
        (∀ e', e' ≠ "" → dotted e' ≠ dotted e → get s' (VStr e') = get s (VStr e')) ∧
        get s' VUndefined = get s VUndefined.
Proof.
  intros He. unfold clear. cbn [truthy ext_key]. 
  destruct (String.eqb_spec e ""); [done|]. cbn [negb mbind option_bind].
  eexists. split; [done|].
  split; [|split; [|done]].
  - rewrite get_string by done. unfold prop. cbn [heap_of cache].
    rewrite cleared_entries, lookup_delete_eq.
    rewrite lookup_delete_ne by apply dotted_not_star. done.
  - intros e' He' Hk. rewrite !get_string by done. unfold prop. cbn [heap_of cache].
    rewrite cleared_entries, !lookup_delete_ne; [done| |done].
    apply dotted_not_star.
Qed.

Lemma clear_then_get_witness :
  "tmpl" ≠ "" ∧
  get initialized (VStr "tmpl") = Some lodash_module ∧
  ∃ s', clear initialized (VStr "tmpl") = Some s' ∧
        get s' (VStr "tmpl") = Some VUndefined.
Proof.
  split; [done|]. split; [vm_compute; reflexivity|].
  destruct (clear_then_get initialized "tmpl") as (s' & Hrun & Hget & _); [done|].
  exists s'. split; [exact Hrun|]. rewrite Hget. vm_compute. reflexivity.
Defined.

(** X9.  [clear()] replaces the cache, it does not empty it: the new
    cache is an object that did not exist before, the old mapping and
    every other object keep their entries, [get()] now returns the new,
    empty mapping, and [get] of any non-empty extension is
    [undefined]. *)
Theorem clear_all_replaces_mapping (s : state) (ext : value) :
  truthy ext = false →
  ∃ s', clear s ext = Some s' ∧
        cache s' = length (heap_of s) ∧
        (∀ l, l < length (heap_of s) → deref (heap_of s') l = deref (heap_of s) l) ∧
        get s' VUndefined = Some (VRef (length (heap_of s))) ∧
        (∀ e, e ≠ "" → get s' (VStr e) = Some VUndefined).
Proof.
  intros Hf. unfold clear. rewrite Hf. eexists. split; [done|].
  cbn [heap_of cache]. split; [done|]. split; [|split; [done|]].
  - intros l _. apply deref_alloc.
  - intros e He. rewrite get_string by done. unfold prop. cbn [heap_of cache].
    by rewrite own_props_new, !lookup_empty.
Qed.

Lemma clear_all_replaces_mapping_witness :
  truthy VUndefined = false ∧
  ∃ s', clear initialized VUndefined = Some s' ∧
        cache s' ≠ cache initialized ∧
        get s' (VStr "tmpl") = Some VUndefined.
Proof.
  split; [reflexivity|].
  destruct (clear_all_replaces_mapping initialized VUndefined)
    as (s' & Hrun & Hc & _ & _ & Hget); [reflexivity|].
  exists s'. split; [exact Hrun|].
  split; [rewrite Hc; vm_compute; lia|by apply Hget].
Defined.

(** ** The options store, beyond the claims *)

Lemma ordinary_options_store (h : heap) (o c l : loc) (k : string) (x : value) :
  ordinary_options (State (store h l k x) o c) = ordinary_options (State h o c).
Proof. unfold ordinary_options. cbn [heap_of options]. by rewrite callable_store. Qed.

(** X10.  [option(key, value)] followed by [option(key)].  For a string
    key other than [__proto__] the call with two arguments writes that
    one key of the options store in place; reading the key back gives the
    value, every other key reads as before, and the cache is not
    touched. *)
Theorem option_set_then_read (k : string) (v : value) (rest : list value) (s : state) :
  options s < length (heap_of s) →
  ordinary_options s = true →
  k ≠ "__proto__" →
  ∃ s', option_call (VStr k :: v :: rest) s = Return Chain s' ∧
        option_call [VStr k] s' = Return (Value v) s' ∧
        (∀ k', k' ≠ k → option_read s' k' = option_read s k') ∧
        options s' = options s ∧
        cache s' = cache s ∧
        (options s ≠ cache s → cache_entries s' = cache_entries s).
Proof.
  intros Ho Hord Hk. destruct s as [h o c]. cbn [options heap_of cache] in *.
  exists (State (store h o k v) o c).
  assert (Hread : ∀ k', option_read (State (store h o k v) o c) k' =
                        if decide (k' = k) then Some v
                        else option_read (State h o c) k').
  { intros k'. unfold option_read. rewrite ordinary_options_store.
    cbn [heap_of options]. rewrite own_props_store.
    destruct (decide (VRef o = VRef o ∧ o < length h)) as [_|Hn]; [|naive_solver].
    destruct (decide (k' = k)) as [->|Hne];
      [by rewrite lookup_insert_eq|by rewrite lookup_insert_ne]. }
  split.
  { unfold option_call. cbn [nth]. rewrite bind_eq. cbn [type_of typeof].
    destruct (decide (TString = TObject)) as [|_]; [done|].
    rewrite bind_eq. unfold put_option. rewrite Hord. cbn [negb].
    destruct (decide (k = "__proto__")); done. }
  split.
  { unfold option_call. cbn [nth]. rewrite Hread.
    by destruct (decide (k = k)). }
  split; [|split; [done|split; [done|]]].
  - intros k' Hne. rewrite Hread. by destruct (decide (k' = k)).
  - intros Hne. cbn [heap_of cache]. apply own_props_store_ne. congruence.
Qed.

Lemma option_set_then_read_witness :
  options initialized < length (heap_of initialized) ∧
  ordinary_options initialized = true ∧
  "a" ≠ "__proto__" ∧
  ∃ s', option_call [VStr "a"; VBool true] initialized = Return Chain s' ∧
        option_call [VStr "a"] s' = Return (Value (VBool true)) s'.
Proof.
  split; [vm_compute; lia|]. split; [reflexivity|]. split; [done|].
  destruct (option_set_then_read "a" (VBool true) [] initialized)
    as (s' & Hset & Hread & _); [vm_compute; lia|reflexivity|done|].
  exists s'. by split.
Defined.

(** X11.  [option(mapping)] merges in place.  Called with one object
    that has no key [__proto__] of its own (or with [null], which
    contributes nothing) it copies the entries of the mapping over those
    of the options store; [engines.options] is still the same object, and
    no other object is written. *)
Theorem option_merges_in_place (m : value) (s : state) :
  typeof (heap_of s) m = TObject →
  own_props (heap_of s) m !! "__proto__" = None →
  options s < length (heap_of s) →
  ordinary_options s = true →
  ∃ s', option_call [m] s = Return Chain s' ∧
        options s' = options s ∧
        cache s' = cache s ∧
        option_entries s' = own_props (heap_of s) m ∪ option_entries s ∧
        ∀ l, l ≠ options s → deref (heap_of s') l = deref (heap_of s) l.
Proof.
  intros Hty Hp Ho Hord. destruct s as [h o c]. cbn [options heap_of cache] in *.
  assert (Hc : callable (deref h o) = false).
  { unfold ordinary_options in Hord. cbn [heap_of options] in Hord.
    by destruct (callable (deref h o)). }
  exists (State (<[o := Obj false (own_props h m ∪ props (deref h o))]> h) o c).
  split.
  { assert (Hrun : (let! ty := type_of m in
                    if decide (ty = TObject)
                    then let! o' := read_options in merge_into o' m;; ret Chain
                    else match m with
                         | VStr k => put_option k VUndefined;; ret Chain
                         | _ => unmodelled
                         end) (State h o c) =
                   Return Chain (State (<[o := Obj false (own_props h m ∪ props (deref h o))]> h) o c)).
    { rewrite bind_eq. cbn [type_of heap_of]. rewrite Hty.
      destruct (decide (TObject = TObject)) as [_|]; [|done].
      rewrite bind_eq. cbn [read_options options]. rewrite bind_eq.
      rewrite merge_into_entries; cbn [heap_of options cache]; try done.
      intros x ->. discriminate Hty. }
    destruct m; try exact Hrun. discriminate Hty. }
  cbn [options heap_of cache]. split; [done|]. split; [done|]. split.
  - rewrite own_props_insert.
    destruct (decide (VRef o = VRef o ∧ _)) as [_|Hn]; [done|naive_solver].
  - intros l Hl. rewrite deref_insert. by destruct (decide _) as [[? _]|].
Qed.

Lemma option_merges_in_place_witness :
  typeof (heap_of with_options) (VRef 6) = TObject ∧
  own_props (heap_of with_options) (VRef 6) !! "__proto__" = None ∧
  options with_options < length (heap_of with_options) ∧
  ordinary_options with_options = true ∧
  ∃ s', option_call [VRef 6] with_options = Return Chain s' ∧
        options s' = options with_options ∧
        option_read s' "a" = Some (VNum 1).
Proof.
  split; [reflexivity|]. split; [reflexivity|]. split; [vm_compute; lia|].
  split; [reflexivity|].
  destruct (option_merges_in_place (VRef 6) with_options)
    as (s' & Hrun & Ho & _ & Hentries & _);
    [reflexivity|reflexivity|vm_compute; lia|reflexivity|].
  exists s'. split; [exact Hrun|]. split; [exact Ho|].
  unfold option_read. rewrite Hentries. vm_compute. reflexivity.
Defined.

(** X12.  [extend] never writes to an existing object.  For a plain
    mapping the call returns; the merged options are a new object, and
    the mapping passed in, the previous options object and everything
    else in the heap keep their entries, so a reference to the old
    [engines.options] does not see the merge. *)
Theorem extend_allocates (obj : value) (s : state) :
  plain_mapping (heap_of s) obj →
  option_entries s !! "__proto__" = None →
  ∃ s', extend obj s = Return tt s' ∧
        options s' = length (heap_of s) ∧
        cache s' = cache s ∧
        ∀ l, l < length (heap_of s) → deref (heap_of s') l = deref (heap_of s) l.
Proof.
  intros Hobj Hopt.
  destruct (extend_plain obj s Hobj Hopt) as (s' & Hrun & _).
  destruct (extend_frame obj s s' Hrun) as (Ho & Hc & _ & _ & Hframe).
  exists s'. split; [exact Hrun|]. split; [done|]. split; [done|].
  intros l Hl. apply Hframe. lia.
Qed.

Lemma extend_allocates_witness :
  plain_mapping (heap_of with_options) (VRef 6) ∧
  option_entries with_options !! "__proto__" = None ∧
  ∃ s', extend (VRef 6) with_options = Return tt s' ∧
        options s' = 7 ∧
        own_props (heap_of s') (VRef (options with_options)) = ∅.
Proof.
  assert (H1 : plain_mapping (heap_of with_options) (VRef 6)) by done.
  assert (H2 : option_entries with_options !! "__proto__" = None) by done.
  split; [exact H1|]. split; [exact H2|].
  destruct (extend_allocates (VRef 6) with_options H1 H2)
    as (s' & Hrun & Ho & _ & Hframe).
  exists s'. split; [exact Hrun|]. split; [exact Ho|].
  unfold own_props. rewrite Hframe by (vm_compute; lia). reflexivity.
Defined.

(** ** Bulk registration, beyond the claims *)

Lemma load_prefix (pre : list (string * value)) : ∀ s,
  cache s < length (heap_of s) →
  Forall (loadable s) pre →
  ∃ s', (∀ rest, load (pre ++ rest) s = load rest s') ∧
        cache s' = cache s ∧
        cache_entries s' =
          foldl (λ m kv, <[dotted kv.1 := kv.2]> m) (cache_entries s)
                (filter (owns_render (heap_of s)) pre) ∧
        length (heap_of s) ≤ length (heap_of s') ∧
        (∀ v, typeof (heap_of s') v = typeof (heap_of s) v) ∧
        (∀ v, own_props (heap_of s') v !! "render" = own_props (heap_of s) v !! "render") ∧
        (∀ v, own_props (heap_of s') v !! "hasOwnProperty" =
              own_props (heap_of s) v !! "hasOwnProperty").
Proof.
  induction pre as [|[k v] pre IH]; intros s Hc Hall.
  - exists s. by repeat split.
  - apply Forall_cons in Hall as [(Hn & Hh & Hkv) Hpre]. cbn [fst snd] in Hn, Hh, Hkv.
    rewrite filter_cons.
    destruct (decide (owns_render (heap_of s) (k, v))) as [Hown|Hown].
    + destruct (Hkv Hown) as [Hty Hne].
      destruct (owner_is_reference _ _ Hown) as [l Hl]. cbn [snd] in Hl. subst v.
      set (s1 := registered s k [VRef l] l).
      destruct (IH s1)
        as (s' & Hrun & Hcache & Hprops & Hlen & Htype & Hrender & Hhop).
      { pose proof (registered_length k [VRef l] l s). fold s1 in H.
        change (cache s1) with (cache s). lia. }
      { eapply Forall_impl; [exact Hpre|]. intros kv. by apply loadable_registered. }
      change (cache s1) with (cache s) in Hcache, Hprops.
      unfold s1 in Hprops. rewrite registered_cache in Hprops by congruence.
      exists s'. split; [|split; [done|split; [|split; [|split; [|split]]]]].
      * intros rest. cbn [app load].
        rewrite bind_eq, has_own_property_builtin by done.
        rewrite bool_decide_eq_true_2 by exact Hown.
        rewrite bind_eq, (register_success k [VRef l] l s eq_refl Hty).
        apply Hrun.
      * rewrite Hprops. cbn [foldl fst snd]. f_equal.
        apply list_filter_iff. intros kv. unfold owns_render, s1.
        by rewrite registered_owns_render.
      * pose proof (registered_length k [VRef l] l s). fold s1 in H. lia.
      * intros v. rewrite Htype. apply registered_typeof.
      * intros v. rewrite Hrender. by apply registered_owns_render.
      * intros v. rewrite Hhop. apply registered_has_own_property.
    + destruct (IH s Hc Hpre) as (s' & Hrun & Hrest).
      exists s'. split; [|exact Hrest].
      intros rest. cbn [app load].
      rewrite bind_eq, has_own_property_builtin by done.
      rewrite bool_decide_eq_false_2 by exact Hown.
      rewrite bind_eq. apply Hrun.
Qed.

(** X13.  [load] stops at the first entry it cannot take.  When the
    entries before it are fine, a value that is [undefined] or [null]
    makes [load] throw a TypeError, and a value without a
    [hasOwnProperty] of its own that owns a [render] which is not
    callable makes it throw the Invalid Engine error; the entries before
    it have been registered, the entry itself and those after it have
    not. *)
Theorem load_stops_at_bad_entry (pre rest : list (string * value))
    (k : string) (v : value) (s : state) :
  cache s < length (heap_of s) →
  Forall (loadable s) pre →
  nullish v = true ∨
    (own_props (heap_of s) v !! "hasOwnProperty" = None ∧
     owns_render (heap_of s) (k, v) ∧
     typeof (heap_of s) (prop (heap_of s) v "render") ≠ TFunction ∧
     v ≠ VRef (cache s)) →
  ∃ s', load (pre ++ (k, v) :: rest) s =
          Throw (if nullish v then TypeError else InvalidEngine) s' ∧
        cache s' = cache s ∧
        cache_entries s' =
          foldl (λ m kv, <[dotted kv.1 := kv.2]> m) (cache_entries s)
                (filter (owns_render (heap_of s)) pre).
Proof.
  intros Hc Hpre Hbad.
  destruct (load_prefix pre s Hc Hpre)
    as (s1 & Hrun & Hcache & Hprops & Hlen & Htype & Hrender & Hhop).
  rewrite Hrun. cbn [load]. rewrite bind_eq.
  destruct Hbad as [Hn|(Hh & Hown & Hty & Hne)].
  - unfold has_own_property. rewrite Hn. by exists s1.
  - destruct (owner_is_reference _ _ Hown) as [l Hl]. cbn [snd] in Hl. subst v.
    rewrite has_own_property_builtin by (by rewrite ?Hhop).
    cbn [nullish]. rewrite bool_decide_eq_true_2
      by (rewrite Hrender; exact Hown).
    rewrite bind_eq, (register_failure k [VRef l] l s1 eq_refl).
    + exists (rejected s1 [VRef l] l). split; [done|]. split; [done|].
      change (cache (rejected s1 [VRef l] l)) with (cache s1).
      rewrite rejected_cache by congruence. exact Hprops.
    + unfold prop in *. by rewrite Htype, Hrender.
Qed.

Lemma load_stops_at_bad_entry_witness :
  ∃ s', load [("hbs", VRef 14); ("a", VRef 16); ("tmpl", VRef 14)] with_engines =
          Throw InvalidEngine s' ∧
        cache_entries s' = <[".hbs" := VRef 14]> (cache_entries with_engines).
Proof.
  destruct (load_stops_at_bad_entry [("hbs", VRef 14)] [("tmpl", VRef 14)]
              "a" (VRef 16) with_engines) as (s' & Hrun & _ & Hentries).
  - vm_compute. lia.
  - apply Forall_cons. split; [|by apply Forall_nil].
    split; [reflexivity|]. split; [reflexivity|]. intros _.
    split; [vm_compute; reflexivity|vm_compute; congruence].
  - right. split; [reflexivity|]. split; [eexists; vm_compute; reflexivity|].
    split; [vm_compute; congruence|vm_compute; congruence].
  - exists s'. split; [exact Hrun|]. rewrite Hentries. vm_compute. reflexivity.
Defined.

(** X14.  A mapping without any [render] owner.  When no value is
    [undefined] or [null], none has a [hasOwnProperty] of its own and none
    owns [render], [load] returns and the state is exactly what it was:
    nothing is registered and nothing is allocated.  The empty mapping is
    the simplest case. *)
Theorem load_nothing_to_register (entries : list (string * value)) (s : state) :
  Forall (λ kv, nullish kv.2 = false ∧
                own_props (heap_of s) kv.2 !! "hasOwnProperty" = None ∧
                ¬ owns_render (heap_of s) kv) entries →
  load entries s = Return tt s.
Proof.
  induction entries as [|[k v] entries IH]; intros Hall; [done|].
  apply Forall_cons in Hall as [(Hn & Hh & Hown) Hrest]. cbn [fst snd] in Hn, Hh, Hown.
  cbn [load]. rewrite bind_eq, has_own_property_builtin by done.
  rewrite bool_decide_eq_false_2 by exact Hown.
  rewrite bind_eq. by apply IH.
Qed.

Lemma load_nothing_to_register_witness :
  load [("txt", VRef 15); ("n", VNum 3)] with_engines = Return tt with_engines.
Proof.
  apply load_nothing_to_register.
  apply Forall_cons. split; [|apply Forall_cons; split; [|by apply Forall_nil]].
  - split; [reflexivity|]. split; [reflexivity|].
    intros [x Hx]. vm_compute in Hx. discriminate.
  - split; [reflexivity|]. split; [reflexivity|].
    intros [x Hx]. vm_compute in Hx. discriminate.
Defined.

(** ** Keys *)

(** X15.  The normalization of an extension, as [register], [get] and
    [clear] apply it: the result always starts with a dot, a string that
    starts with a dot is left alone, and normalizing twice is normalizing
    once. *)
Theorem dotted_idempotent (ext : string) :
  (∃ r, dotted ext = String "." r) ∧
  (∀ r, dotted (String "." r) = String "." r) ∧
  dotted (dotted ext) = dotted ext.
Proof.
  split; [apply dotted_shape|]. split; [done|].
  by destruct (dotted_shape ext) as [r ->].
Qed.

(** ** After initialization, beyond the claims *)

(** X17.  What [get] finds after [init]: the bundled lodash engine under
    [tmpl], with or without the dot, and the bundled noop engine under the
    extension [*] itself, with or without the dot. *)
Theorem init_then_get (lm nm opts : value) (s s' : state) :
  bundled s lm → bundled s nm →
  init lm nm opts s = Return tt s' →
  get s' (VStr "tmpl") = Some lm ∧ get s' (VStr ".tmpl") = Some lm ∧
  get s' (VStr "*") = Some nm ∧ get s' (VStr ".*") = Some nm.
Proof.
  intros Hlm Hnm Hrun.
  destruct (init_returned lm nm opts s s' Hlm Hnm Hrun) as (Hcache & _).
  destruct Hlm as [(ll & -> & _) _]. destruct Hnm as [(ln & -> & _) _].
  rewrite !get_string by done. unfold prop. rewrite Hcache.
  change (dotted "tmpl") with ".tmpl". change (dotted ".tmpl") with ".tmpl".
  change (dotted "*") with ".*". change (dotted ".*") with ".*".
  rewrite lookup_insert_eq, lookup_insert_ne, lookup_insert_eq by done.
  done.
Qed.

Lemma init_then_get_witness :
  get initialized (VStr "tmpl") = Some lodash_module ∧
  get initialized (VStr "*") = Some noop_module.
Proof.
  assert (Hl : bundled boot lodash_module).
  { split; [exists 1; split; [done|vm_compute; lia]|reflexivity]. }
  assert (Hn : bundled boot noop_module).
  { split; [exists 3; split; [done|vm_compute; lia]|reflexivity]. }
  assert (Hrun : init lodash_module noop_module VUndefined boot = Return tt initialized)
    by (vm_compute; reflexivity).
  destruct (init_then_get lodash_module noop_module VUndefined boot initialized
              Hl Hn Hrun) as (H1 & _ & H2 & _).
  by split.
Defined.

(** ** An invariant of the registry *)

Section Keeps.
Implicit Types (s : state) (v : value) (k : string) (l : loc).

Lemma grows_refl s : grows s s.
Proof. by repeat split. Qed.

Lemma grows_trans s1 s2 s3 : grows s1 s2 → grows s2 s3 → grows s1 s3.
Proof. intros (? & ? & ?) (? & ? & ?). repeat split; [congruence..|lia]. Qed.

Lemma keeps_ret {A} (a : A) : keeps (ret a).
Proof. intros s. apply grows_refl. Qed.

Lemma keeps_throw {A} (e : error) : keeps (@throw A e).
Proof. intros s. apply grows_refl. Qed.

Lemma keeps_bind {A B} (c : M A) (f : A → M B) :
  keeps c → (∀ a, keeps (f a)) → keeps (bind c f).
Proof.
  intros Hc Hf s. rewrite bind_eq. specialize (Hc s).
  destruct (c s) as [a s'|e s'|s']; [|done..].
  eapply grows_trans; [exact Hc|apply Hf].
Qed.

Lemma keeps_unmodelled {A} : keeps (@unmodelled A).
Proof. intros s. apply grows_refl. Qed.

Lemma keeps_new_object : keeps new_object.
Proof. intros s. repeat split. cbn. rewrite length_app. lia. Qed.

Lemma keeps_member v k : keeps (member v k).
Proof. intros s. unfold member. destruct (nullish v); apply grows_refl. Qed.

Lemma keeps_assign v k x : keeps (assign v k x).
Proof.
  intros s. unfold assign. destruct v; try apply grows_refl.
  repeat split. cbn. by rewrite length_store.
Qed.

Lemma keeps_type_of v : keeps (type_of v).
Proof. intros s. apply grows_refl. Qed.

Lemma keeps_read_cache : keeps read_cache.
Proof. intros s. apply grows_refl. Qed.

Lemma keeps_read_options : keeps read_options.
Proof. intros s. apply grows_refl. Qed.

Lemma keeps_merge_into l v : keeps (merge_into l v).
Proof.
  intros s. unfold merge_into. cbv zeta.
  destruct (callable _); [apply grows_refl|].
  destruct (_ ≫= _); [|apply grows_refl].
  repeat split. cbn. by rewrite length_insert.
Qed.

Lemma keeps_put_option k v : keeps (put_option k v).
Proof.
  intros s. unfold put_option. destruct (negb _); [apply grows_refl|].
  destruct (decide _); [|apply keeps_assign].
  destruct (owns_proto _ _); [apply keeps_assign|].
  destruct v; apply grows_refl.
Qed.

Lemma keeps_option_read k :
  keeps (λ s, match option_read s k with
              | Some v => Return (Value v) s
              | None => Unmodelled s
              end).
Proof. intros s. cbv beta. destruct (option_read s k); apply grows_refl. Qed.

Lemma keeps_has_own_property v k : keeps (has_own_property v k).
Proof.
  intros s. unfold has_own_property. destruct (nullish v); [apply grows_refl|].
  destruct (_ !! _); [destruct (decide _)|]; apply grows_refl.
Qed.
End Keeps.

Ltac keeps_step :=
  first
    [ apply keeps_ret | apply keeps_throw | apply keeps_new_object
    | apply keeps_member | apply keeps_assign | apply keeps_type_of
    | apply keeps_read_cache | apply keeps_read_options | apply keeps_merge_into
    | apply keeps_has_own_property | apply keeps_put_option
    | apply keeps_option_read | apply keeps_unmodelled
    | apply keeps_bind; [|intros ?]
    | match goal with
      | |- keeps (match ?x with _ => _ end) => destruct x
      end
    | progress cbv zeta ].

Lemma keeps_register (ext : string) (args : list value) : keeps (register ext args).
Proof. unfold register. repeat keeps_step. Qed.

Lemma keeps_load (entries : list (string * value)) : keeps (load entries).
Proof.
  induction entries as [|[k v] entries IH]; cbn [load]; [apply keeps_ret|].
  apply keeps_bind; [apply keeps_has_own_property|intros own].
  apply keeps_bind; [|intros _; exact IH].
  destruct own; [apply keeps_register|apply keeps_ret].
Qed.

Lemma keeps_option_call (args : list value) : keeps (option_call args).
Proof.
  unfold option_call. destruct args as [|[] [|? ?]]; cbn [nth];
    repeat keeps_step.
Qed.

Lemma stores_apart_grows (s s' : state) : stores_apart s → grows s s' → stores_apart s'.
Proof.
  intros (Ho & Hc & Hne) (Eo & Ec & Hlen). unfold stores_apart.
  rewrite Eo, Ec. repeat split; [lia|lia|done].
Qed.

Lemma settled_state_of {A} (r : outcome A) (s' : state) :
  settled_state r = Some s' → s' = state_of r.
Proof. destruct r; [by intros [= <-]..|done]. Qed.

Lemma settled_state_bind {A B} (c : M A) (f : A → M B) (s s' : state) :
  settled_state (bind c f s) = Some s' →
  (∃ a s1, c s = Return a s1 ∧ settled_state (f a s1) = Some s') ∨
  (∃ e, c s = Throw e s').
Proof.
  rewrite bind_eq. destruct (c s) as [a s1|e s1|s1]; [|intros [= <-]|done].
  - left. by exists a, s1.
  - right. by exists e.
Qed.

(** [extend] returns or leaves what is represented; it does not throw. *)
Lemma extend_never_throws (obj : value) (s : state) (e : error) (s' : state) :
  extend obj s ≠ Throw e s'.
Proof.
  destruct s as [h o c]. unfold extend. do 3 step.
  destruct (decide _) as [_|_].
  - rewrite bind_eq. unfold customize. by destruct (decide _).
  - rewrite !bind_eq.
    destruct (merge_into _ (VRef o) _) as [[] s1|e1 s1|s1] eqn:H1; [| |done].
    + destruct (merge_into _ obj s1) as [[] s2|e2 s2|s2] eqn:H2; [done| |done].
      unfold merge_into in H2. cbv zeta in H2.
      destruct (callable _); [done|]. by destruct (_ ≫= _).
    + unfold merge_into in H1. cbv zeta in H1.
      destruct (callable _); [done|]. by destruct (_ ≫= _).
Qed.

Lemma extend_keeps_stores_apart (obj : value) (s s' : state) :
  settled_state (extend obj s) = Some s' → stores_apart s → stores_apart s'.
Proof.
  intros Hrun (Ho & Hc & Hne).
  destruct (extend obj s) as [[] s1|e s1|s1] eqn:Hext; [|by apply extend_never_throws in Hext|done].
  injection Hrun as ->.
  destruct (extend_frame obj s s' Hext) as (Ho' & Hc' & Hlen & _).
  unfold stores_apart. rewrite Ho', Hc', Hlen. repeat split; lia.
Qed.

Lemma perform_keeps_stores_apart (lm nm : value) (c : call) (s s' : state) :
  perform lm nm c s = Some s' → stores_apart s → stores_apart s'.
Proof.
  intros Hrun Hs. destruct c as [ext args|entries|ext|obj|args|opts];
    cbn [perform] in Hrun.
  - apply settled_state_of in Hrun as ->.
    eapply stores_apart_grows; [exact Hs|apply keeps_register].
  - apply settled_state_of in Hrun as ->.
    eapply stores_apart_grows; [exact Hs|apply keeps_load].
  - destruct Hs as (Ho & Hc & Hne). unfold clear in Hrun.
    destruct (truthy ext).
    + destruct ext; try done. cbn in Hrun. apply (inj Some) in Hrun as <-.
      unfold stores_apart. cbn. unfold remove. rewrite length_insert. done.
    + apply (inj Some) in Hrun as <-. unfold stores_apart. cbn. rewrite length_app. cbn.
      repeat split; lia.
  - by eapply extend_keeps_stores_apart.
  - apply settled_state_of in Hrun as ->.
    eapply stores_apart_grows; [exact Hs|apply keeps_option_call].
  - rewrite init_unfold in Hrun.
    apply settled_state_bind in Hrun as [([] & s1 & Hext & Hrun)|[e Hext]];
      [|by apply extend_never_throws in Hext].
    apply settled_state_of in Hrun as ->.
    eapply stores_apart_grows;
      [|unfold defaultEngines; apply keeps_bind;
        [apply keeps_register|intros _; apply keeps_register]].
    eapply extend_keeps_stores_apart; [by rewrite Hext|].
    destruct Hs as (Ho & Hc & Hne). unfold stores_apart, emptied.
    cbn [heap_of options cache]. rewrite !length_app. cbn. repeat split; lia.
Qed.

(** X16.  The two stores stay two.  Starting from a state in which
    [engines.options] and [engines.cache] are different objects, they
    still are after any sequence of calls of [register], [load], [clear],
    [extend], [option] and [init] in which no call runs a function of
    the caller or leaves what is represented in another way, whether the
    calls returned or threw. *)
Theorem calls_keep_stores_apart (lm nm : value) (calls : list call) (s s' : state) :
  perform_all lm nm calls s = Some s' →
  stores_apart s →
  stores_apart s'.
Proof.
  revert s. induction calls as [|c calls IH]; intros s Hrun Hs; cbn [perform_all] in Hrun.
  - by injection Hrun as <-.
  - destruct (perform lm nm c s) as [s1|] eqn:Hc; [|done]. cbn in Hrun.
    eapply IH; [exact Hrun|]. by eapply perform_keeps_stores_apart.
Qed.

Lemma calls_keep_stores_apart_witness :
  stores_apart boot ∧
  ∃ s', perform_all lodash_module noop_module
          [ CallInit VUndefined; CallRegister "x" [VNull]; CallClear VUndefined;
            CallOption [VStr "a"; VNum 1]; CallExtend VNull ] boot = Some s' ∧
        stores_apart s'.
Proof.
  assert (Hb : stores_apart boot) by (vm_compute; repeat split; lia).
  split; [exact Hb|].
  destruct (perform_all lodash_module noop_module
              [ CallInit VUndefined; CallRegister "x" [VNull]; CallClear VUndefined;
                CallOption [VStr "a"; VNum 1]; CallExtend VNull ] boot)
    as [s'|] eqn:Hrun.
  - exists s'. split; [reflexivity|].
    exact (calls_keep_stores_apart lodash_module noop_module _ boot s' Hrun Hb).
  - exfalso. vm_compute in Hrun. discriminate Hrun.
Defined.

(** ** Registering a descriptor twice *)

Lemma js_or_absorb (a b : value) : js_or (js_or a b) b = js_or a b.
Proof. unfold js_or. destruct (truthy a) eqn:Ha; [by rewrite Ha|]. by destruct (truthy b). Qed.

Lemma store_same (h : heap) (l : loc) (k : string) (x : value) (v : value) :
  own_props h (VRef l) !! k = Some x →
  own_props (store h l k x) v = own_props h v.
Proof.
  intros Hk. rewrite own_props_store. destruct (decide _) as [[-> _]|]; [|done].
  by apply insert_id.
Qed.

Lemma decorate_settled (h : heap) (opts : value) (l : loc) :
  settled h l →
  own_props (decorate h opts l) (VRef l) = own_props h (VRef l).
Proof.
  intros (Ht & [o Ho] & Hrest). unfold decorate.
  set (h2 := if callable (deref h l) then _ else _).
  assert (Hsame : ∀ v, own_props h2 v = own_props h v).
  { intros v. unfold h2. destruct (callable (deref h l)).
    - destruct Hrest as [r Hr]. apply store_same. unfold prop. by rewrite Hr.
    - destruct Hrest as (x & Hx & Hfix). apply store_same.
      unfold prop at 1. rewrite Hx. cbn. by rewrite Hfix. }
  assert (Hopt : prop h2 (VRef l) "options" = o)
    by (unfold prop; by rewrite Hsame, Ho).
  assert (Ho' : truthy o = true) by (unfold prop in Ht; by rewrite Ho in Ht).
  rewrite Hopt. unfold js_or. rewrite Ho', Ho'.
  rewrite store_same; [apply Hsame|by rewrite Hsame].
Qed.

Lemma settled_after_decorate (h : heap) (opts : value) (l : loc) :
  l < length h →
  typeof h (prop h (VRef l) "render") = TFunction →
  settled (decorate h opts l) l.
Proof.
  intros Hl Hty.
  assert (Ht : truthy (prop (decorate h opts l) (VRef l) "options") = true)
    by (rewrite decorate_options by done; apply js_or_reference_truthy).
  split; [exact Ht|]. split; [by apply truthy_prop_is_own|].
  rewrite decorate_callable.
  destruct (callable (deref h l)) eqn:Hcall.
  - apply truthy_prop_is_own. rewrite decorate_render.
    by destruct (prop h (VRef l) "render").
  - pose proof (decorate_render_file h opts l Hl) as Hfile. rewrite Hcall in Hfile.
    assert (Hex : prop (decorate h opts l) (VRef l) "__express" =
                  prop h (VRef l) "__express").
    { unfold decorate. rewrite Hcall.
      set (h2 := store h l "renderFile" _).
      destruct (truthy (js_or (prop h2 (VRef l) "options") opts));
        rewrite ?(prop_store_other _ _ "options"), ?prop_alloc by done;
        unfold h2; by rewrite prop_store_other. }
    assert (Hown : is_Some (own_props (decorate h opts l) (VRef l) !! "renderFile")).
    { unfold decorate. rewrite Hcall.
      set (h2 := store h l "renderFile" _).
      destruct (truthy (js_or (prop h2 (VRef l) "options") opts));
        rewrite own_props_store, ?own_props_alloc; unfold h2.
      - destruct (decide _) as [_|[]]; [|split; [done|by rewrite length_store]].
        rewrite lookup_insert_ne by done. rewrite own_props_store.
        destruct (decide _) as [_|[]]; [|done]. by rewrite lookup_insert_eq.
      - destruct (decide _) as [_|[]];
          [|split; [done|rewrite length_app, length_store; lia]].
        rewrite lookup_insert_ne by done. rewrite own_props_store.
        destruct (decide _) as [_|[]]; [|done]. by rewrite lookup_insert_eq. }
    destruct Hown as [x Hx]. exists x. split; [exact Hx|].
    unfold prop in Hfile at 1. rewrite Hx in Hfile. cbn in Hfile. subst x.
    rewrite Hex. apply js_or_absorb.
Qed.

Lemma settled_ext (h h' : heap) (l : loc) :
  deref h' l = deref h l → settled h l → settled h' l.
Proof. unfold settled, prop, own_props. by intros ->. Qed.

(** X18.  Registering a descriptor a second time does not change it.
    Once an object or function has been registered, registering it again,
    under any key and with any options argument, leaves all its
    properties as they are: in particular it keeps the [options] of the
    first registration, the new options argument is ignored. *)
Theorem register_twice_keeps_descriptor (ext1 ext2 : string) (args1 args2 : list value)
    (l : loc) (s : state) :
  engine_arg args1 = VRef l → engine_arg args2 = VRef l →
  typeof (heap_of s) (prop (heap_of s) (VRef l) "render") = TFunction →
  cache s < length (heap_of s) → l ≠ cache s →
  ∃ s1 s2, register ext1 args1 s = Return tt s1 ∧
           register ext2 args2 s1 = Return tt s2 ∧
           own_props (heap_of s2) (VRef l) = own_props (heap_of s1) (VRef l).
Proof.
  intros Hfn1 Hfn2 Hty Hc Hne.
  pose proof (callable_render_exists _ _ Hty) as Hl.
  set (s1 := registered s ext1 args1 l).
  assert (Hty1 : typeof (heap_of s1) (prop (heap_of s1) (VRef l) "render") = TFunction)
    by (unfold s1; by rewrite registered_typeof, registered_render).
  exists s1, (registered s1 ext2 args2 l).
  split; [by apply register_success|]. split; [by apply register_success|].
  pose proof (entry_heap_length (heap_of s) args1) as Hlen1.
  assert (Hset : settled (heap_of s1) l).
  { eapply settled_ext; [|apply (settled_after_decorate
        (entry_heap (heap_of s) args1) (options_arg (heap_of s) args1) l)].
    - unfold s1. cbn [registered heap_of]. by rewrite deref_store_ne.
    - lia.
    - by rewrite entry_heap_typeof, entry_heap_prop. }
  cbn [registered heap_of].
  rewrite own_props_store_ne by (change (cache s1) with (cache s); congruence).
  rewrite decorate_settled.
  - apply entry_heap_own_props.
  - eapply settled_ext; [|exact Hset]. apply entry_heap_deref.
Qed.

Lemma register_twice_keeps_descriptor_witness :
  ∃ s1 s2, register "hbs" [VRef 15; VRef 14] with_engines = Return tt s1 ∧
           register "html" [VRef 16; VRef 14] s1 = Return tt s2 ∧
           prop (heap_of s2) (VRef 14) "options" = VRef 15.
Proof.
  destruct (register_twice_keeps_descriptor "hbs" "html" [VRef 15; VRef 14]
              [VRef 16; VRef 14] 14 with_engines)
    as (s1 & s2 & Hrun1 & Hrun2 & Hsame);
    [reflexivity|reflexivity|vm_compute; reflexivity|vm_compute; lia|vm_compute; lia|].
  exists s1, s2. split; [exact Hrun1|]. split; [exact Hrun2|].
  unfold prop. rewrite Hsame.
  assert (Hs1 : s1 = registered with_engines "hbs" [VRef 15; VRef 14] 14).
  { destruct (register_returns_inv _ _ _ _ Hrun1) as (l & Hl & _ & ->).
    injection Hl as <-. done. }
  rewrite Hs1. vm_compute. reflexivity.
Defined.

(** X19.  [register] does not touch the options store.  Whatever the
    outcome of the call, the entries of [engines.options] are those from
    before, provided the engine passed is not the options object
    itself. *)
Theorem register_leaves_options (ext : string) (args : list value) (s : state) :
  stores_apart s →
  engine_arg args ≠ VRef (options s) →
  options (state_of (register ext args s)) = options s ∧
  option_entries (state_of (register ext args s)) = option_entries s.
Proof.
  intros (Ho & Hc & Hne) Harg.
  destruct (engine_arg args) as [| | | | | |l] eqn:Hfn.
  1,2: rewrite register_nullish by (by rewrite Hfn); cbn [state_of options heap_of];
    (split; [done|apply entry_heap_own_props]).
  1,2,3,4: destruct (register_primitive ext args s) as (h' & Hrun & Hframe);
    [by rewrite Hfn|by rewrite Hfn|];
    rewrite Hrun; cbn [state_of options heap_of]; (split; [done|]);
    unfold own_props; rewrite Hframe; [done|lia].
  destruct (decide (typeof (heap_of s) (prop (heap_of s) (VRef l) "render") = TFunction))
    as [Hty|Hty].
  - rewrite (register_success ext args l s Hfn Hty). cbn [state_of].
    split; [done|]. change (options (registered s ext args l)) with (options s).
    apply registered_other; congruence.
  - rewrite (register_failure ext args l s Hfn Hty). cbn [state_of].
    split; [done|]. cbn [rejected options heap_of].
    rewrite decorate_own_props_ne by congruence. apply entry_heap_own_props.
Qed.

Lemma register_leaves_options_witness :
  stores_apart with_options_set ∧
  engine_arg [VNum 7] ≠ VRef (options with_options_set) ∧
  option_read (state_of (register "x" [VNum 7] with_options_set)) "a" = Some (VNum 1).
Proof.
  assert (Hs : stores_apart with_options_set) by (vm_compute; repeat split; lia).
  assert (Ha : engine_arg [VNum 7] ≠ VRef (options with_options_set)) by done.
  split; [exact Hs|]. split; [exact Ha|].
  destruct (register_leaves_options "x" [VNum 7] with_options_set Hs Ha) as [Ho He].
  unfold option_read. rewrite He. vm_compute. reflexivity.
Defined.

(** ** Composition *)

Lemma foldl_insert_miss (entries : list (string * value)) : ∀ (m : gmap string value) k,
  k ∉ (λ kv, dotted kv.1) <$> entries →
  foldl (λ m kv, <[dotted kv.1 := kv.2]> m) m entries !! k = m !! k.
Proof.
  induction entries as [|[k' v'] entries IH]; intros m k Hk; [done|].
  cbn [foldl fst snd]. rewrite fmap_cons in Hk. cbn [fst] in Hk.
  apply not_elem_of_cons in Hk as [Hne Hk].
  rewrite IH by done. by rewrite lookup_insert_ne.
Qed.

Lemma foldl_insert_hit (entries : list (string * value)) : ∀ (m : gmap string value) k v,
  NoDup ((λ kv, dotted kv.1) <$> entries) →
  (k, v) ∈ entries →
  foldl (λ m kv, <[dotted kv.1 := kv.2]> m) m entries !! dotted k = Some v.
Proof.
  induction entries as [|[k' v'] entries IH]; intros m k v Hnd Hin.
  - by apply elem_of_nil in Hin.
  - rewrite fmap_cons in Hnd. cbn [fst] in Hnd.
    apply NoDup_cons in Hnd as [Hfresh Hnd]. cbn [foldl fst snd].
    apply elem_of_cons in Hin as [[= -> ->]|Hin].
    + rewrite foldl_insert_miss by done. by rewrite lookup_insert_eq.
    + by apply IH.
Qed.

(** X20.  Bulk registration followed by lookup.  After [load] of a
    mapping it accepts (no value [undefined], [null] or with a
    [hasOwnProperty] of its own, every [render] callable), [get] of the
    key of any entry whose value owns [render] returns that value, as
    long as the key is not empty and no two such entries have the same
    normalized key. *)
Theorem load_then_get (entries : list (string * value)) (s : state)
    (k : string) (v : value) :
  cache s < length (heap_of s) →
  Forall (loadable s) entries →
  NoDup ((λ kv, dotted kv.1) <$> filter (owns_render (heap_of s)) entries) →
  (k, v) ∈ entries → owns_render (heap_of s) (k, v) → k ≠ "" →
  ∃ s', load entries s = Return tt s' ∧ get s' (VStr k) = Some v.
Proof.
  intros Hc Hall Hnd Hin Hown Hk.
  destruct (load_prefix entries s Hc Hall) as (s' & Hrun & Hcache & Hprops & _).
  exists s'. split; [by rewrite <- (app_nil_r entries), Hrun|].
  rewrite get_string by done. unfold prop. rewrite Hprops.
  rewrite (foldl_insert_hit _ _ k v Hnd).
  - destruct (owner_is_reference _ _ Hown) as [l Hl]. cbn [snd] in Hl. by subst v.
  - apply list_elem_of_filter. by split.
Qed.

Lemma load_then_get_witness :
  ∃ s', load [("hbs", VRef 14); ("txt", VRef 15)] with_engines = Return tt s' ∧
        get s' (VStr "hbs") = Some (VRef 14).
Proof.
  apply (load_then_get [("hbs", VRef 14); ("txt", VRef 15)] with_engines "hbs" (VRef 14)).
  - vm_compute. lia.
  - apply Forall_cons. split; [|apply Forall_cons; split; [|by apply Forall_nil]].
    + split; [reflexivity|]. split; [reflexivity|]. intros _.
      split; [vm_compute; reflexivity|vm_compute; congruence].
    + split; [reflexivity|]. split; [reflexivity|].
      intros [x Hx]. exfalso. vm_compute in Hx. discriminate.
  - vm_compute. apply NoDup_singleton.
  - apply elem_of_cons. by left.
  - eexists. vm_compute. reflexivity.
  - done.
Defined.

(** X21.  Two calls of [extend] compose.  For plain mappings [a] and
    [b], the options after [extend(a); extend(b)] are the entries of [b]
    over those of [a] over the previous ones: the later call wins on a
    shared key, and extending twice with the same mapping is extending
    once. *)
Theorem extend_twice (a b : value) (s : state) :
  plain_mapping (heap_of s) a →
  plain_mapping (heap_of s) b →
  option_entries s !! "__proto__" = None →
  (∀ l, b = VRef l → l < length (heap_of s)) →
  ∃ s1 s2, extend a s = Return tt s1 ∧
           extend b s1 = Return tt s2 ∧
           option_entries s2 =
             own_props (heap_of s) b ∪ (own_props (heap_of s) a ∪ option_entries s) ∧
           (a = b → option_entries s2 = option_entries s1).
Proof.
  intros Ha (Hbt & Hbp & Hbs) Hopt Hb.
  destruct (extend_plain a s Ha Hopt) as (s1 & Hrun1 & He1).
  destruct (extend_frame a s s1 Hrun1) as (_ & _ & _ & _ & Hframe1).
  assert (Hd : ∀ l, b = VRef l → deref (heap_of s1) l = deref (heap_of s) l).
  { intros l Hl. apply Hframe1. specialize (Hb l Hl). lia. }
  assert (Hb1 : own_props (heap_of s1) b = own_props (heap_of s) b).
  { destruct b as [| | | | | |l]; try done. unfold own_props. by rewrite Hd. }
  assert (Hpa : own_props (heap_of s) a !! "__proto__" = None) by apply Ha.
  destruct (extend_plain b s1) as (s2 & Hrun2 & He2).
  { repeat split; [|by rewrite Hb1|done].
    destruct b as [| | | | | |l]; try done. cbn [typeof] in *. by rewrite Hd. }
  { by rewrite He1, lookup_union, Hpa, Hopt. }
  exists s1, s2. split; [exact Hrun1|]. split; [exact Hrun2|].
  rewrite He2, Hb1, He1. split; [done|]. intros ->.
  by rewrite (assoc_L (∪)), (idemp_L (∪)).
Qed.

Lemma extend_twice_witness :
  plain_mapping (heap_of with_options) (VRef 6) ∧
  option_entries with_options !! "__proto__" = None ∧
  ∃ s1 s2, extend (VRef 6) with_options = Return tt s1 ∧
           extend (VRef 6) s1 = Return tt s2 ∧
           option_entries s2 = option_entries s1.
Proof.
  assert (H1 : plain_mapping (heap_of with_options) (VRef 6)) by done.
  assert (H2 : option_entries with_options !! "__proto__" = None) by done.
  split; [exact H1|]. split; [exact H2|].
  destruct (extend_twice (VRef 6) (VRef 6) with_options H1 H1 H2)
    as (s1 & s2 & Hr1 & Hr2 & _ & Hsame).
  { intros l [= <-]. vm_compute. lia. }
  exists s1, s2. split; [exact Hr1|]. split; [exact Hr2|]. by apply Hsame.
Defined.
